(** * Atlas agent workspace: the reply heuristics and the conversation controller

    A shallow embedding of [src/app/page.tsx]: the keyword matcher
    [pickNarrative], the formatter [formatAgentMessage] with its helper
    [summarizePrimaryTask], and the state handled by the [Home] component
    ([queueUserMessage], [toggleMode], [acceptQuickPrompt] and the timer
    callback), followed by the properties the specification states about
    them. *)

From Stdlib Require Import ZArith NArith Lia Bool Ascii String DecimalString Floats.
From Stdlib Require DecimalNat DecimalFacts.
From stdpp Require Import base list.

Set Default Proof Using "Type".
Local Open Scope N_scope.

(** ** JavaScript strings and the string primitives the page uses *)

Module JS.

(** A JavaScript string is a sequence of UTF-16 code units. *)
Definition jsstring : Type := list N.

(** A source literal made of Basic Latin characters only. *)
Definition u16 (s : string) : jsstring :=
  List.map N_of_ascii (list_ascii_of_string s).

(** Truthiness of a string: only the empty string is falsy. *)
Definition truthy (s : jsstring) : bool :=
  match s with [] => false | _ :: _ => true end.

(** The code units matched by [\s] in a regular expression, which are also
    the ones [String.prototype.trim] strips: ECMAScript's WhiteSpace and
    LineTerminator. *)
Definition isWhiteSpace (c : N) : bool :=
  ((9 <=? c) && (c <=? 13)) || (c =? 32) || (c =? 160) || (c =? 5760)
  || ((8192 <=? c) && (c <=? 8202)) || (c =? 8232) || (c =? 8233)
  || (c =? 8239) || (c =? 8287) || (c =? 12288) || (c =? 65279).

Fixpoint trimStart (s : jsstring) : jsstring :=
  match s with
  | [] => []
  | c :: s' => if isWhiteSpace c then trimStart s' else s
  end.

Fixpoint trimEnd (s : jsstring) : jsstring :=
  match s with
  | [] => []
  | c :: s' =>
      match trimEnd s' with
      | [] => if isWhiteSpace c then [] else [c]
      | t => c :: t
      end
  end.

(** [s.trim()] *)
Definition trim (s : jsstring) : jsstring := trimEnd (trimStart s).

(** [s.replace(/\s+/g, " ")]: every maximal run of white space becomes one
    space.  [inRun] tells that the previous code unit was white space. *)
Fixpoint replaceRuns (inRun : bool) (s : jsstring) : jsstring :=
  match s with
  | [] => []
  | c :: s' =>
      if isWhiteSpace c
      then (if inRun then replaceRuns true s' else 32 :: replaceRuns true s')
      else c :: replaceRuns false s'
  end.

Definition collapseWhiteSpace (s : jsstring) : jsstring := replaceRuns false s.

Fixpoint startsWith (k s : jsstring) : bool :=
  match k, s with
  | [], _ => true
  | _ :: _, [] => false
  | a :: k', b :: s' => (a =? b) && startsWith k' s'
  end.

(** [s.includes(k)] *)
Fixpoint includes (s k : jsstring) : bool :=
  startsWith k s
  || match s with
     | [] => false
     | _ :: s' => includes s' k
     end.

(** [parts.join(sep)] *)
Fixpoint join (sep : jsstring) (parts : list jsstring) : jsstring :=
  match parts with
  | [] => []
  | [p] => p
  | p :: rest => p ++ sep ++ join sep rest
  end.

(** [xs.slice(-n)]: the last [n] elements, all of them when there are fewer. *)
Definition sliceLast {A} (n : nat) (xs : list A) : list A :=
  drop (length xs - n) xs.

(** [xs.filter(Boolean)] on an array of [string | null]. *)
Definition filterBoolean (xs : list (option jsstring)) : list jsstring :=
  omap (fun x => match x with
                 | Some s => if truthy s then Some s else None
                 | None => None
                 end) xs.

(** A natural number inside a template literal: its decimal digits. *)
Definition decimal (n : nat) : jsstring :=
  u16 (NilEmpty.string_of_uint (Nat.to_uint n)).

(** [String.prototype.toLowerCase] restricted to Basic Latin: on a string
    of code units below 128 the host function is this one. *)
Definition asciiToLowerCase (s : jsstring) : jsstring :=
  List.map (fun c => if (65 <=? c) && (c <=? 90) then c + 32 else c) s.

Definition lf : jsstring := [10].

End JS.

Import JS.

(** ** Data model *)

Inductive Author := user | agent | system.

#[global] Instance Author_eq_dec : EqDecision Author.
Proof. solve_decision. Defined.

Record Message := mkMessage {
  id : jsstring;
  author : Author;
  content : jsstring;
  hint : option jsstring;
  createdAt : jsstring;
}.

Record ModeState := mkMode {
  analysis : bool;
  planning : bool;
  summary : bool;
}.

Inductive ModeKey := KAnalysis | KPlanning | KSummary.

(** What [pickNarrative] hands back: [defaultResponse] has these two fields
    and a heuristic rule has them besides its keywords. *)
Record Response := mkResponse {
  narrative : jsstring;
  steps : list jsstring;
}.

Record HeuristicRule := mkRule {
  keywords : list jsstring;
  response :> Response;
}.

(** ** The static tables *)

Definition greeting : jsstring :=
  u16 "Hey there! I'm Atlas, your autonomous problem-solving agent. Drop a challenge below and I'll break it down, plan my moves, and deliver focused execution steps.".

(** [initialMessages]; [createId()] and [new Date().toISOString()] are
    evaluated by the host when the module loads. *)
Definition initialMessages (id0 now0 : jsstring) : list Message :=
  [ mkMessage id0 agent greeting (Some (u16 "Ready when you are")) now0 ].

Definition quickPrompts : list jsstring :=
  [ u16 "Design a launch plan for a new productivity SaaS";
    u16 "Break down a research workflow for market validation";
    u16 "Draft a content calendar targeting AI engineers";
    u16 "Map the first sprint for a web-based AI companion" ].

Definition heuristics : list HeuristicRule :=
  [ mkRule [u16 "plan"; u16 "roadmap"; u16 "milestone"; u16 "strategy"]
      (mkResponse
         (u16 "You need a structured path. I'll break the objective into phases with crisp deliverables and checkpoints.")
         [ u16 "Clarify success metrics and guardrails";
           u16 "Sequence milestones with resource sizing";
           u16 "Highlight dependencies and risk mitigations" ]);
    mkRule [u16 "content"; u16 "write"; u16 "copy"; u16 "post"]
      (mkResponse
         (u16 "Let's align voice, audience, and distribution to keep every piece on-message and high leverage.")
         [ u16 "Confirm target persona pains and desired outcomes";
           u16 "Outline a reusable pillar/cluster structure";
           u16 "Draft samples with tone, CTA, and repurposing notes" ]);
    mkRule [u16 "research"; u16 "analyze"; u16 "compare"; u16 "study"]
      (mkResponse
         (u16 "I'll synthesize signals, highlight patterns, and surface what deserves deeper digging.")
         [ u16 "Frame hypotheses and evidence you already have";
           u16 "Collect primary/secondary sources with confidence tiers";
           u16 "Extract insights, contradictions, and suggested experiments" ]);
    mkRule [u16 "code"; u16 "build"; u16 "architecture"; u16 "feature"]
      (mkResponse
         (u16 "I'll transform requirements into architecture, interfaces, and delivery sequencing.")
         [ u16 "Capture user flows and data contracts";
           u16 "Design modular components with integration notes";
           u16 "Plan implementation slices with testing anchors" ]) ].

Definition defaultResponse : Response :=
  mkResponse
    (u16 "I'll evaluate the request, stabilize assumptions, and recommend a pragmatic action plan.")
    [ u16 "Clarify the core objective and constraints";
      u16 "Identify the most leverage-first deliverables";
      u16 "Provide a tight feedback loop for the next iteration" ].

(** ** The formatter *)

Definition summarizePrimaryTask (prompt : jsstring) (steps : list jsstring) : jsstring :=
  let concise := trim (collapseWhiteSpace prompt) in
  if negb (truthy concise) then default (u16 "Establishing context") (steps !! 0%nat)
  else if (length concise <? 120)%nat then concise
  else default (u16 "Defining the objective") (steps !! 0%nat).

(** The text before [${msg.content.trim()}] in the template literal of
    line 135, as the source file spells it: U+00E2, U+20AC, U+00A2 and a
    space. *)
Definition bullet : jsstring := [226; 8364; 162; 32].

Definition isUser (msg : Message) : bool := bool_decide (author msg = user).

Definition reflectionsOf (messageHistory : list Message) : jsstring :=
  join lf
    (List.map (fun msg => bullet ++ trim (content msg))
       (sliceLast 2 (List.filter isUser messageHistory))).

Definition analysisSegment (narrative : jsstring) (reflections : jsstring) : jsstring :=
  let analysisLines :=
    filterBoolean
      [ Some (u16 "**Analysis**");
        Some narrative;
        if truthy reflections then Some (u16 "Recent signals:") else None;
        if truthy reflections then Some reflections else None ] in
  join lf analysisLines.

Definition planSegment (steps : list jsstring) : jsstring :=
  let planLines :=
    u16 "**Plan**"
    :: imap (fun index step => decimal (index + 1) ++ u16 ". " ++ step) steps in
  join lf planLines.

Definition nextMoveSegment (input : jsstring) (steps : list jsstring) : jsstring :=
  join lf
    [ u16 "**Next Move**";
      u16 "I'll start by focusing on: " ++ summarizePrimaryTask input steps ].

Definition formatAgentMessage (input : jsstring) (mode : ModeState)
    (narrative : jsstring) (steps : list jsstring)
    (messageHistory : list Message) : jsstring :=
  let reflections := reflectionsOf messageHistory in
  let segments : list jsstring := [] in
  let segments :=
    if analysis mode then segments ++ [analysisSegment narrative reflections]
    else segments in
  let segments :=
    if planning mode then segments ++ [planSegment steps] else segments in
  let segments :=
    if summary mode then segments ++ [nextMoveSegment input steps]
    else segments in
  join (lf ++ lf) segments.

(** ** The matcher and the controller

    [String.prototype.toLowerCase] is the host's: it follows the Unicode
    case mappings, special cases included.  Nothing below depends on which
    function it is. *)

Section Atlas.

Variable toLowerCase : jsstring -> jsstring.

Definition keywordHit (normalized : jsstring) (candidate : HeuristicRule) : bool :=
  existsb (fun keyword => includes normalized keyword) (keywords candidate).

Definition pickNarrative (prompt : jsstring) : Response :=
  let normalized := toLowerCase prompt in
  let found := List.find (keywordHit normalized) heuristics in
  match found with
  | Some rule => response rule
  | None => defaultResponse
  end.

(** A pending [setTimeout]: the delay it was given and the [agentMessage]
    its callback closes over. *)
Record Timer := mkTimer {
  delay : float;
  agentMessage : Message;
}.

(** The state of [Home]: the four [useState] cells and the host's pending
    timers. *)
Record AppState := mkState {
  messages : list Message;
  input : jsstring;
  mode : ModeState;
  isThinking : bool;
  timers : list Timer;
}.

(** What the host supplies during one run of [queueUserMessage]: two
    [createId()] results, two [new Date().toISOString()] results and one
    [Math.random()]. *)
Record Host := mkHost {
  userId : jsstring;
  userNow : jsstring;
  agentId : jsstring;
  agentNow : jsstring;
  random : float;
}.

Definition initialState (id0 now0 : jsstring) : AppState :=
  mkState (initialMessages id0 now0) [] (mkMode true true true) false [].

(** The second argument of [setTimeout]. *)
Definition timeoutDelay (r : float) : float := (550 + r * 400)%float.

Definition queueUserMessage (h : Host) (s : AppState) : AppState :=
  let trimmed := trim (input s) in
  if negb (truthy trimmed) || isThinking s then s
  else
    let userMessage := mkMessage (userId h) user trimmed None (userNow h) in
    let picked := pickNarrative trimmed in
    let agentContent :=
      formatAgentMessage trimmed (mode s) (narrative picked) (steps picked)
        (messages s ++ [userMessage]) in
    let agentMessage :=
      mkMessage (agentId h) agent agentContent
        (Some (u16 "Calibrated plan ready")) (agentNow h) in
    mkState (messages s ++ [userMessage]) [] (mode s) true
      (timers s ++ [mkTimer (timeoutDelay (random h)) agentMessage]).

(** The callback given to [setTimeout]. *)
Definition timeoutCallback (agentMessage : Message) (s : AppState) : AppState :=
  mkState (messages s ++ [agentMessage]) (input s) (mode s) false (timers s).

(** The host runs the [i]-th pending timer, which is then gone. *)
Definition fireTimer (i : nat) (s : AppState) : AppState :=
  match timers s !! i with
  | Some t =>
      timeoutCallback (agentMessage t)
        (mkState (messages s) (input s) (mode s) (isThinking s)
           (delete i (timers s)))
  | None => s
  end.

Definition toggleMode (key : ModeKey) (s : AppState) : AppState :=
  let prev := mode s in
  let next :=
    match key with
    | KAnalysis => mkMode (negb (analysis prev)) (planning prev) (summary prev)
    | KPlanning => mkMode (analysis prev) (negb (planning prev)) (summary prev)
    | KSummary => mkMode (analysis prev) (planning prev) (negb (summary prev))
    end in
  mkState (messages s) (input s) next (isThinking s) (timers s).

Definition setInput (v : jsstring) (s : AppState) : AppState :=
  mkState (messages s) v (mode s) (isThinking s) (timers s).

Definition acceptQuickPrompt (prompt : jsstring) (s : AppState) : AppState :=
  setInput prompt s.

(** The events of the page: typing in the text area, a quick-prompt button,
    a mode toggle, a submit (the form or the Enter key) and a timer firing.
    Each handler runs to its end on the state of the latest render, so the
    [messages] it reads and the [prev] its updater receives are the same
    list. *)
Inductive Event :=
  | Change (v : jsstring)
  | QuickPrompt (i : nat)
  | Toggle (key : ModeKey)
  | Submit (h : Host)
  | Timeout (i : nat).

Definition step (e : Event) (s : AppState) : AppState :=
  match e with
  | Change v => setInput v s
  | QuickPrompt i =>
      match quickPrompts !! i with
      | Some prompt => acceptQuickPrompt prompt s
      | None => s
      end
  | Toggle key => toggleMode key s
  | Submit h => queueUserMessage h s
  | Timeout i => fireTimer i s
  end.

Definition run (es : list Event) (s : AppState) : AppState :=
  foldl (fun st e => step e st) s es.

(** The states the page can be in. *)
Inductive reachable : AppState -> Prop :=
  | reachable_init (id0 now0 : jsstring) : reachable (initialState id0 now0)
  | reachable_step (e : Event) (s : AppState) :
      reachable s -> reachable (step e s).

End Atlas.

(** ** What the page shows *)

Definition taglines : list jsstring :=
  [ u16 "Agentic reasoning with measurable outcomes.";
    u16 "Human goals, machine execution, tight loops.";
    u16 "From insight to action without babysitting." ].

(** [rotatingTagline]: the element of [taglines] at
    [messages.length % taglines.length]; an index outside the array would
    give [undefined]. *)
Definition rotatingTagline (messages : list Message) : option jsstring :=
  let index := (length messages mod length taglines)%nat in
  taglines !! index.

(** [mode[key]], which the control panel shows as ON or OFF. *)
Definition modeFlag (key : ModeKey) (m : ModeState) : bool :=
  match key with
  | KAnalysis => analysis m
  | KPlanning => planning m
  | KSummary => summary m
  end.

(** The [disabled] attribute of the send button. *)
Definition sendDisabled (s : AppState) : bool :=
  negb (truthy (trim (input s))) || isThinking s.

(** ** The specification's vocabulary

    Relations the statements below are phrased with; none of them is used
    by the code above. *)

(** [k] occurs in [text] as a substring. *)
Definition occursIn (k text : jsstring) : Prop :=
  exists pre post, text = pre ++ k ++ post.

(** Some keyword of [rule] occurs in [text]. *)
Definition ruleMatches (text : jsstring) (rule : HeuristicRule) : Prop :=
  exists k, k ∈ keywords rule /\ occursIn k text.

(** The primary task as the specification words it, with one fallback
    phrase: the collapsed, trimmed prompt when it is nonempty and shorter
    than 120, otherwise the first step, otherwise the fallback. *)
Definition primaryTaskSpec (fallback prompt : jsstring) (steps : list jsstring) : jsstring :=
  let concise := trim (collapseWhiteSpace prompt) in
  if truthy concise && (length concise <? 120)%nat then concise
  else match steps with
       | first :: _ => first
       | [] => fallback
       end.

(** The user-authored messages of a history, in order. *)
Definition userMessages (history : list Message) : list Message :=
  filter (fun msg => author msg = user) history.

(** The last two elements of a list (fewer when it is shorter). *)
Definition lastTwo {A} (l : list A) : list A :=
  match reverse l with
  | a :: b :: _ => [b; a]
  | short => short
  end.

(** One line of the recent-signals listing. *)
Definition signalLine (msg : Message) : jsstring := bullet ++ trim (content msg).

(** The lines of a numbered list whose first number is [n]. *)
Fixpoint numberedFrom (n : nat) (steps : list jsstring) : list jsstring :=
  match steps with
  | [] => []
  | step :: rest => (decimal n ++ u16 ". " ++ step) :: numberedFrom (S n) rest
  end.

(** The number a string of decimal digits denotes, read from the left:
    the digit [0] is the code unit 48. *)
Definition numeralValue (s : jsstring) : nat :=
  foldl (fun acc c => (10 * acc + N.to_nat (c - 48))%nat) 0%nat s.

(** A decimal numeral: at least one digit, digits only (code units 48 to
    57), and no leading zero except in the numeral 0 itself. *)
Definition isNumeral (s : jsstring) : Prop :=
  s <> []
  /\ Forall (fun c => 48 <= c /\ c <= 57) s
  /\ (head s = Some 48 -> s = [48]).

(** A segment is present exactly when its flag is set. *)
Definition whenSet (flag : bool) (segment : jsstring) : list jsstring :=
  if flag then [segment] else [].

(** Two newlines: what separates two segments. *)
Definition blankLine : jsstring := lf ++ lf.

(** Every agent message has a user message somewhere before it. *)
Definition agentsFollowUsers (l : list Message) : Prop :=
  forall i a, l !! i = Some a -> author a = agent ->
    exists j u, (j < i)%nat /\ l !! j = Some u /\ author u = user.

Section Conversation.

Variable toLowerCase : jsstring -> jsstring.

(** The agent message [a] is the reply to the user message [u] that came
    after the messages [before]: its content is what the formatter makes of
    [u]'s content, under some setting of the flags, on the history that
    ends with [u]. *)
Definition triggered (before : list Message) (u a : Message) : Prop :=
  author u = user /\ author a = agent
  /\ exists flags,
       content a
       = formatAgentMessage (content u) flags
           (narrative (pickNarrative toLowerCase (content u)))
           (steps (pickNarrative toLowerCase (content u)))
           (before ++ [u]).

(** The greeting followed by complete turns, each a user message and the
    reply it triggered. *)
Inductive conversation : list Message -> Prop :=
  | conversation_init (id0 now0 : jsstring) :
      conversation (initialMessages id0 now0)
  | conversation_turn (l : list Message) (u a : Message) :
      conversation l -> triggered l u a -> conversation (l ++ [u; a]).

(** What holds of every state of the page: when idle no timer is pending
    and the messages are complete turns; when thinking the last message is
    the user's and the one pending timer carries its reply. *)
Definition consistent (s : AppState) : Prop :=
  (isThinking s = false /\ timers s = [] /\ conversation (messages s))
  \/ (isThinking s = true
      /\ exists l u t,
           messages s = l ++ [u] /\ timers s = [t]
           /\ conversation l /\ triggered l u (agentMessage t)).

End Conversation.

(** An event other than a timer firing. *)
Definition notTimeout (e : Event) : Prop :=
  match e with
  | Timeout _ => False
  | _ => True
  end.

(** The value [m * 2 ^ e] counted in units of [2 ^ -1200], an integer for
    every exponent a binary64 operation on the delay meets. *)
Definition scaled (m e : Z) : Z := (m * 2 ^ (e + 1200))%Z.

(** White space occurs in [s] only as single spaces, none next to another;
    [afterSpace] tells that the code unit before [s] was white space. *)
Fixpoint singleSpaced (afterSpace : bool) (s : jsstring) : bool :=
  match s with
  | [] => true
  | c :: s' =>
      if isWhiteSpace c
      then negb afterSpace && (c =? 32) && singleSpaced true s'
      else singleSpaced false s'
  end.

(** A message a submit may store: a user message has a nonempty content
    with no white space at either end and no hint; an agent message has a
    hint; there is no system message. *)
Definition storable (m : Message) : Prop :=
  match author m with
  | user => content m <> [] /\ trim (content m) = content m /\ hint m = None
  | agent => hint m <> None
  | system => False
  end.

(** A submit or a timer firing: what happens when the user only presses
    Enter or the send button again and again. *)
Definition submitOrTimeout (e : Event) : Prop :=
  match e with
  | Submit _ | Timeout _ => True
  | _ => False
  end.

(** Sample values for the host and for states of the page. *)
Definition sampleHost : Host :=
  mkHost (u16 "id-user") (u16 "10:00:00") (u16 "id-agent") (u16 "10:00:01")
    0.5%float.

Definition sampleHostTop : Host :=
  mkHost (u16 "id-user") (u16 "10:00:00") (u16 "id-agent") (u16 "10:00:01")
    0x1.fffffffffffffp-1%float.

Definition sampleStart : AppState := initialState (u16 "id-0") (u16 "09:59:59").

Definition sampleBlank : AppState := setInput (u16 "   ") sampleStart.

Definition sampleTyped : AppState :=
  setInput (u16 "  Draft a post about roadmaps ") sampleStart.

Definition sampleSilent : AppState :=
  run asciiToLowerCase
    [Toggle KAnalysis; Toggle KPlanning; Toggle KSummary; Change (u16 "hello")]
    sampleStart.

Definition sampleDone : AppState :=
  run asciiToLowerCase [Submit sampleHost; Timeout 0] sampleTyped.

Definition samplePending : AppState :=
  step asciiToLowerCase (Submit sampleHost) sampleTyped.

(** * Properties *)

(** ** Strings *)

Lemma startsWith_spec (k s : jsstring) :
  startsWith k s = true <-> exists post, s = k ++ post.
Proof.
  revert s; induction k as [|a k IH]; intros s; simpl.
  - split; [intros _; now exists s | reflexivity].
  - destruct s as [|b s].
    + split; [discriminate | intros [post H]; discriminate H].
    + rewrite andb_true_iff, N.eqb_eq, IH. split.
      * intros [-> [post ->]]. now exists post.
      * intros [post H]. injection H as -> ->. split; [reflexivity | now exists post].
Qed.

(** [includes] is the substring test. *)
Lemma includes_spec (s k : jsstring) :
  includes s k = true <-> exists pre post, s = pre ++ k ++ post.
Proof.
  induction s as [|c s IH].
  - simpl. rewrite orb_false_r, startsWith_spec. split.
    + intros [post H]. now exists [], post.
    + intros [pre [post H]]. destruct pre as [|? ?]; [now exists post | discriminate H].
  - cbn [includes]. rewrite orb_true_iff, startsWith_spec, IH. split.
    + intros [[post H] | [pre [post H]]].
      * now exists [], post.
      * exists (c :: pre), post. now rewrite H.
    + intros [pre [post H]]. destruct pre as [|d pre].
      * left. now exists post.
      * right. injection H as -> ->. now exists pre, post.
Qed.

Lemma trimEnd_idem (s : jsstring) : trimEnd (trimEnd s) = trimEnd s.
Proof.
  induction s as [|c s IH]; [reflexivity|].
  cbn [trimEnd]. destruct (trimEnd s) as [|d t] eqn:E.
  - destruct (isWhiteSpace c) eqn:W; [reflexivity|].
    cbn [trimEnd]. now rewrite W.
  - cbn [trimEnd] in IH |- *. now rewrite IH.
Qed.

Lemma trimEnd_cons_keep (c : N) (s : jsstring) :
  isWhiteSpace c = false -> exists t, trimEnd (c :: s) = c :: t.
Proof.
  intros W. cbn [trimEnd]. destruct (trimEnd s) as [|d t].
  - rewrite W. now exists [].
  - now exists (d :: t).
Qed.

Lemma trimStart_head (s : jsstring) :
  trimStart s = [] \/ exists c t, trimStart s = c :: t /\ isWhiteSpace c = false.
Proof.
  induction s as [|c s IH]; [now left|].
  cbn [trimStart]. destruct (isWhiteSpace c) eqn:W; [exact IH|].
  right. now exists c, s.
Qed.

(** Trimming a trimmed string changes nothing. *)
Lemma trim_idem (s : jsstring) : trim (trim s) = trim s.
Proof.
  unfold trim. destruct (trimStart_head s) as [E | (c & t & E & W)]; rewrite E.
  - reflexivity.
  - destruct (trimEnd_cons_keep c t W) as [u Eu].
    rewrite Eu. cbn [trimStart]. rewrite W, <- Eu. apply trimEnd_idem.
Qed.

Example trim_examples :
  trim (u16 "  a  b ") = u16 "a  b"
  /\ trim [9; 10; 160; 8232; 65279] = []
  /\ collapseWhiteSpace (u16 "  a  b ") = u16 " a b "
  /\ includes (u16 "launch plan") (u16 "plan") = true
  /\ includes (u16 "launch") (u16 "plan") = false.
Proof. repeat split; vm_compute; reflexivity. Qed.

Lemma truthy_true (s : jsstring) : truthy s = true <-> s <> [].
Proof. destruct s; simpl; split; congruence. Qed.

Lemma truthy_app_l (a b : jsstring) : truthy a = true -> truthy (a ++ b) = true.
Proof. now destruct a. Qed.

Lemma join_cons_cons (sep p q : jsstring) (rest : list jsstring) :
  join sep (p :: q :: rest) = p ++ sep ++ join sep (q :: rest).
Proof. reflexivity. Qed.

Lemma join_snoc (sep : jsstring) (parts : list jsstring) (p q : jsstring) :
  join sep ((parts ++ [p]) ++ [q]) = join sep (parts ++ [p]) ++ sep ++ q.
Proof.
  induction parts as [|a parts IH]; [reflexivity|].
  change ((((a :: parts) ++ [p]) ++ [q])) with (a :: ((parts ++ [p]) ++ [q])).
  change ((a :: parts) ++ [p]) with (a :: (parts ++ [p])).
  destruct (parts ++ [p]) as [|b l] eqn:E.
  - destruct parts; discriminate E.
  - change ((b :: l) ++ [q]) with (b :: (l ++ [q])) in *.
    rewrite !join_cons_cons. rewrite IH. now rewrite <- !app_assoc.
Qed.

(** ** The matcher *)

Lemma find_first {A} (f : A -> bool) (l : list A) :
  (exists i x, l !! i = Some x /\ f x = true
     /\ (forall j y, (j < i)%nat -> l !! j = Some y -> f y = false)
     /\ List.find f l = Some x)
  \/ ((forall x, x ∈ l -> f x = false) /\ List.find f l = None).
Proof.
  induction l as [|a l IH].
  - right. split; [|reflexivity]. intros x Hx. inversion Hx.
  - cbn [List.find]. destruct (f a) eqn:Fa.
    + left. exists 0%nat, a. repeat split; try done. intros j y Hj. lia.
    + destruct IH as [(i & x & Hi & Hx & Hbefore & Hfind) | [Hnone Hfind]].
      * left. exists (S i), x. repeat split; try done.
        intros [|j] y Hj Hy.
        -- now injection Hy as <-.
        -- apply (Hbefore j); [lia | exact Hy].
      * right. split; [|exact Hfind].
        intros x Hx. apply elem_of_cons in Hx as [-> | Hx]; auto.
Qed.

Lemma keywordHit_spec (text : jsstring) (rule : HeuristicRule) :
  keywordHit text rule = true <-> ruleMatches text rule.
Proof.
  unfold keywordHit, ruleMatches, occursIn. rewrite existsb_exists. split.
  - intros (k & Hin & Hk). exists k. split.
    + now apply list_elem_of_In.
    + now apply includes_spec.
  - intros (k & Hin & Hk). exists k. split.
    + now apply list_elem_of_In.
    + now apply includes_spec.
Qed.

Lemma keywordHit_false (text : jsstring) (rule : HeuristicRule) :
  keywordHit text rule = false <-> ~ ruleMatches text rule.
Proof.
  rewrite <- keywordHit_spec. destruct (keywordHit text rule); split; congruence.
Qed.

Section Matcher.

Variable toLowerCase : jsstring -> jsstring.

(** C1. For every prompt, [pickNarrative] answers with the first rule of
    the table, in table order, one of whose keywords occurs as a substring
    of the lowercased prompt, and with [defaultResponse] when no rule has
    such a keyword.  One of the two cases always applies, so a response is
    always returned, and a rule is never passed over for a later one. *)
Theorem pickNarrative_first_match (prompt : jsstring) :
  let text := toLowerCase prompt in
  (exists i rule,
      heuristics !! i = Some rule
      /\ ruleMatches text rule
      /\ (forall j earlier, (j < i)%nat -> heuristics !! j = Some earlier ->
            ~ ruleMatches text earlier)
      /\ pickNarrative toLowerCase prompt = response rule)
  \/ ((forall rule, rule ∈ heuristics -> ~ ruleMatches text rule)
      /\ pickNarrative toLowerCase prompt = defaultResponse).
Proof.
  intros text. unfold pickNarrative. fold text.
  destruct (find_first (keywordHit text) heuristics)
    as [(i & rule & Hi & Hhit & Hbefore & Hfind) | [Hnone Hfind]].
  - left. exists i, rule. rewrite Hfind. repeat split; try done.
    + now apply keywordHit_spec.
    + intros j earlier Hj Hlook. apply keywordHit_false. eauto.
  - right. rewrite Hfind. split; [|reflexivity].
    intros rule Hin. apply keywordHit_false. auto.
Qed.

End Matcher.

(** The specification's example: the planning rule answers the first quick
    prompt, and an input with keywords of two rules gets the earlier one. *)
Example pickNarrative_launch_plan :
  heuristics !! 0%nat
  = Some (mkRule [u16 "plan"; u16 "roadmap"; u16 "milestone"; u16 "strategy"]
            (pickNarrative asciiToLowerCase
               (u16 "Design a launch plan for a new productivity SaaS")))
  /\ pickNarrative asciiToLowerCase (u16 "Write CODE for my Roadmap")
     = pickNarrative asciiToLowerCase (u16 "plan")
  /\ pickNarrative asciiToLowerCase (u16 "hello") = defaultResponse.
Proof. repeat split; vm_compute; reflexivity. Qed.

(** ** The primary task *)

Lemma summarizePrimaryTask_cases (prompt : jsstring) (steps : list jsstring) :
  let concise := trim (collapseWhiteSpace prompt) in
  summarizePrimaryTask prompt steps
  = if truthy concise && (length concise <? 120)%nat then concise
    else match steps with
         | first :: _ => first
         | [] => if truthy concise then u16 "Defining the objective"
                 else u16 "Establishing context"
         end.
Proof.
  intros concise. unfold summarizePrimaryTask. fold concise.
  destruct (truthy concise); cbn [negb andb].
  - destruct (length concise <? 120)%nat; [reflexivity|]. now destruct steps.
  - now destruct steps.
Qed.

(** C2, as the claim words it, fails: with no steps the phrase returned for
    an empty prompt is not the phrase returned for a long one, so no single
    fallback phrase describes [summarizePrimaryTask]. *)
Lemma summarizePrimaryTask_no_single_fallback :
  summarizePrimaryTask [] [] = u16 "Establishing context"
  /\ summarizePrimaryTask (repeat 97 120) [] = u16 "Defining the objective"
  /\ ~ (exists fallback, forall prompt steps,
          summarizePrimaryTask prompt steps = primaryTaskSpec fallback prompt steps).
Proof.
  split; [vm_compute; reflexivity|]. split; [vm_compute; reflexivity|].
  intros [fallback H].
  pose proof (H [] []) as H1. pose proof (H (repeat 97 120) []) as H2.
  vm_compute in H1, H2. congruence.
Qed.

(** C2, amended.  The primary task is the collapsed, trimmed prompt when
    that is nonempty and shorter than 120 code units; otherwise it is the
    first step when there is one; otherwise it is "Establishing context"
    for an empty collapsed prompt and "Defining the objective" for a long
    one.  With steps A, B, C and a collapsed prompt of 120 code units or
    more (150, say), the Next Move segment is its heading followed by the
    line "I'll start by focusing on: A", and it is the whole reply when only
    the summary flag is set. *)
Theorem summarizePrimaryTask_spec (prompt : jsstring) (steps : list jsstring) :
  let concise := trim (collapseWhiteSpace prompt) in
  (concise <> [] -> (length concise < 120)%nat ->
     summarizePrimaryTask prompt steps = concise)
  /\ (concise = [] \/ (120 <= length concise)%nat ->
      forall first rest, steps = first :: rest ->
        summarizePrimaryTask prompt steps = first)
  /\ (concise = [] -> steps = [] ->
      summarizePrimaryTask prompt steps = u16 "Establishing context")
  /\ ((120 <= length concise)%nat -> steps = [] ->
      summarizePrimaryTask prompt steps = u16 "Defining the objective")
  /\ ((120 <= length concise)%nat ->
      nextMoveSegment prompt [u16 "A"; u16 "B"; u16 "C"]
      = u16 "**Next Move**" ++ lf ++ u16 "I'll start by focusing on: A"
      /\ forall narrative history,
          formatAgentMessage prompt (mkMode false false true) narrative
            [u16 "A"; u16 "B"; u16 "C"] history
          = u16 "**Next Move**" ++ lf ++ u16 "I'll start by focusing on: A").
Proof.
  intros concise.
  pose proof (summarizePrimaryTask_cases prompt) as E. cbv zeta in E. fold concise in E.
  assert (Hshort : (length concise < 120)%nat -> (length concise <? 120)%nat = true)
    by (intros; now apply Nat.ltb_lt).
  assert (Hlong : (120 <= length concise)%nat ->
                  truthy concise = true /\ (length concise <? 120)%nat = false).
  { intros Hl. split; [|now apply Nat.ltb_ge].
    destruct concise; [simpl in Hl; lia | reflexivity]. }
  split; [|split; [|split; [|split]]].
  - intros Hne Hlt. rewrite E, (Hshort Hlt).
    apply truthy_true in Hne. now rewrite Hne.
  - intros [Hempty | Hl] first rest ->; rewrite E.
    + now rewrite Hempty.
    + destruct (Hlong Hl) as [-> ->]. reflexivity.
  - intros Hempty ->. rewrite E. now rewrite Hempty.
  - intros Hl ->. rewrite E. destruct (Hlong Hl) as [-> ->]. reflexivity.
  - intros Hl. destruct (Hlong Hl) as [Ht Hn]. split.
    + unfold nextMoveSegment. rewrite E, Ht, Hn. reflexivity.
    + intros narrative history.
      unfold formatAgentMessage, nextMoveSegment. cbn [analysis planning summary].
      rewrite E, Ht, Hn. reflexivity.
Qed.

(** The specification's example, on 150 letters x. *)
Example next_move_of_long_input :
  length (trim (collapseWhiteSpace (repeat 120 150))) = 150%nat
  /\ formatAgentMessage (repeat 120 150) (mkMode false false true) []
       [u16 "A"; u16 "B"; u16 "C"] []
     = u16 "**Next Move**" ++ lf ++ u16 "I'll start by focusing on: A".
Proof. split; vm_compute; reflexivity. Qed.

(** Trimming alone does not decide the case: this prompt is 150 code units
    long after [trim], yet its collapsed form is short and is returned. *)
Example long_trimmed_short_collapsed :
  let prompt := u16 "a" ++ repeat 32 148 ++ u16 "b" in
  length (trim prompt) = 150%nat
  /\ summarizePrimaryTask prompt [u16 "A"; u16 "B"; u16 "C"] = u16 "a b".
Proof. split; vm_compute; reflexivity. Qed.

(** ** The formatter *)

Lemma filter_isUser (history : list Message) :
  List.filter isUser history = userMessages history.
Proof.
  unfold userMessages. induction history as [|m history IH]; [reflexivity|].
  cbn [List.filter]. unfold isUser at 1. rewrite filter_cons.
  destruct (decide (author m = user)) as [E|E].
  - rewrite bool_decide_eq_true_2 by exact E. now rewrite IH.
  - rewrite bool_decide_eq_false_2 by exact E. exact IH.
Qed.

Lemma userMessages_app (l1 l2 : list Message) :
  userMessages (l1 ++ l2) = userMessages l1 ++ userMessages l2.
Proof. apply filter_app. Qed.

Lemma userMessages_nil_iff (history : list Message) :
  userMessages history = [] <-> forall m, m ∈ history -> author m <> user.
Proof.
  unfold userMessages. split.
  - intros E m Hin Hu.
    assert (Hm : m ∈ filter (fun msg => author msg = user) history)
      by (apply list_elem_of_filter; auto).
    rewrite E in Hm. inversion Hm.
  - intros H. induction history as [|m history IH]; [reflexivity|].
    rewrite filter_cons. destruct (decide (author m = user)) as [E|E].
    + exfalso. apply (H m); [left | exact E].
    + apply IH. intros m' Hin. apply H. now right.
Qed.

Lemma userMessages_cons_iff (history : list Message) :
  userMessages history <> [] <-> exists m, m ∈ history /\ author m = user.
Proof.
  split.
  - intros Hne. destruct (userMessages history) as [|m l] eqn:E; [congruence|].
    assert (Hm : m ∈ userMessages history) by (rewrite E; left).
    apply list_elem_of_filter in Hm as [Hu Hin]. now exists m.
  - intros (m & Hin & Hu) E.
    exact (proj1 (userMessages_nil_iff history) E m Hin Hu).
Qed.

Lemma sliceLast_snoc {A} (n : nat) (l : list A) (x : A) :
  sliceLast (S n) (l ++ [x]) = sliceLast n l ++ [x].
Proof.
  unfold sliceLast. rewrite length_app. cbn [length].
  replace (length l + 1 - S n)%nat with (length l - n)%nat by lia.
  rewrite drop_app_le by lia. reflexivity.
Qed.

Lemma sliceLast_0 {A} (l : list A) : sliceLast 0 l = [].
Proof. unfold sliceLast. rewrite Nat.sub_0_r. apply drop_all. Qed.

Lemma sliceLast_2 {A} (l : list A) : sliceLast 2 l = lastTwo l.
Proof.
  unfold lastTwo. rewrite <- (reverse_involutive l) at 1.
  destruct (reverse l) as [|a [|b r]].
  - reflexivity.
  - reflexivity.
  - rewrite !reverse_cons. rewrite !sliceLast_snoc, sliceLast_0. reflexivity.
Qed.

Lemma lastTwo_nil_iff {A} (l : list A) : lastTwo l = [] <-> l = [].
Proof.
  unfold lastTwo. split.
  - intros H. destruct (reverse l) as [|a [|b r]] eqn:E; try discriminate H.
    rewrite <- (reverse_involutive l), E. reflexivity.
  - intros ->. reflexivity.
Qed.

Lemma reflectionsOf_spec (history : list Message) :
  reflectionsOf history = join lf (map signalLine (lastTwo (userMessages history))).
Proof. unfold reflectionsOf. now rewrite filter_isUser, sliceLast_2. Qed.

Lemma join_truthy (sep p : jsstring) (rest : list jsstring) :
  truthy p = true -> truthy (join sep (p :: rest)) = true.
Proof.
  intros H. destruct rest; [exact H|]. rewrite join_cons_cons. now apply truthy_app_l.
Qed.

Lemma reflectionsOf_truthy (history : list Message) :
  truthy (reflectionsOf history) = bool_decide (userMessages history <> []).
Proof.
  rewrite reflectionsOf_spec.
  destruct (lastTwo (userMessages history)) as [|m l] eqn:E.
  - rewrite (proj1 (lastTwo_nil_iff _) E). reflexivity.
  - rewrite bool_decide_eq_true_2.
    + cbn [map]. now apply join_truthy.
    + intros H. rewrite H in E. discriminate E.
Qed.

(** Joining the lines of a block that was itself joined. *)
Lemma join_flatten (sep : jsstring) (front block : list jsstring) :
  block <> [] ->
  join sep (front ++ [join sep block]) = join sep (front ++ block).
Proof.
  intros Hne. induction front as [|a front IH].
  - reflexivity.
  - cbn [app]. destruct front as [|b front].
    + cbn [app] in *. destruct block as [|c block]; [congruence|].
      now rewrite !join_cons_cons.
    + cbn [app] in *. rewrite !join_cons_cons. now rewrite IH.
Qed.

Lemma imap_numberedFrom (n : nat) (steps : list jsstring) :
  imap (fun index step => decimal (index + n) ++ u16 ". " ++ step) steps
  = numberedFrom n steps.
Proof.
  revert n. induction steps as [|step steps IH]; intros n; [reflexivity|].
  rewrite imap_cons. cbn [numberedFrom]. f_equal.
  rewrite <- IH. apply imap_ext. intros i x _. unfold compose.
  now replace (S i + n)%nat with (i + S n)%nat by lia.
Qed.

Lemma numberedFrom_lookup (n i : nat) (steps : list jsstring) (step : jsstring) :
  steps !! i = Some step ->
  numberedFrom n steps !! i = Some (decimal (n + i) ++ u16 ". " ++ step).
Proof.
  revert n i. induction steps as [|s steps IH]; intros n i H; [discriminate H|].
  destruct i as [|i]; cbn [numberedFrom].
  - injection H as ->. now rewrite Nat.add_0_r.
  - change (numberedFrom (S n) steps !! i
            = Some (decimal (n + S i) ++ u16 ". " ++ step)).
    rewrite (IH (S n) i H). now replace (S n + i)%nat with (n + S i)%nat by lia.
Qed.

Lemma numberedFrom_length (n : nat) (steps : list jsstring) :
  length (numberedFrom n steps) = length steps.
Proof. revert n; induction steps; intros n; cbn; [reflexivity | now rewrite IHsteps]. Qed.

Lemma formatAgentMessage_unfold (input : jsstring) (mode : ModeState)
    (narrative : jsstring) (steps : list jsstring) (history : list Message) :
  formatAgentMessage input mode narrative steps history
  = join blankLine
      (whenSet (analysis mode) (analysisSegment narrative (reflectionsOf history))
       ++ whenSet (planning mode) (planSegment steps)
       ++ whenSet (summary mode) (nextMoveSegment input steps)).
Proof.
  unfold formatAgentMessage, whenSet, blankLine.
  destruct (analysis mode), (planning mode), (summary mode); reflexivity.
Qed.

Lemma analysisSegment_cases (narrative : jsstring) (history : list Message) :
  let heading := u16 "**Analysis**" in
  let narrativeLines := if truthy narrative then [narrative] else [] in
  let signals := map signalLine (lastTwo (userMessages history)) in
  analysisSegment narrative (reflectionsOf history)
  = if bool_decide (userMessages history <> [])
    then join lf (heading :: narrativeLines ++ u16 "Recent signals:" :: signals)
    else join lf (heading :: narrativeLines).
Proof.
  intros heading narrativeLines signals. unfold analysisSegment.
  rewrite reflectionsOf_truthy.
  destruct (bool_decide (userMessages history <> [])) eqn:D.
  - apply bool_decide_eq_true_1 in D.
    assert (Hs : signals <> []).
    { unfold signals. intros H. apply fmap_nil_inv in H.
      exact (D (proj1 (lastTwo_nil_iff _) H)). }
    pose proof (reflectionsOf_truthy history) as Ht.
    rewrite bool_decide_eq_true_2 in Ht by exact D.
    rewrite reflectionsOf_spec in *. fold signals in Ht |- *.
    unfold filterBoolean, narrativeLines, omap. cbn [list_omap]. rewrite Ht.
    change (truthy (u16 "**Analysis**")) with true.
    change (truthy (u16 "Recent signals:")) with true.
    fold heading. destruct (truthy narrative); cbn [app].
    + apply (join_flatten lf [heading; narrative; u16 "Recent signals:"] signals Hs).
    + apply (join_flatten lf [heading; u16 "Recent signals:"] signals Hs).
  - unfold filterBoolean, narrativeLines, omap. cbn [list_omap].
    change (truthy (u16 "**Analysis**")) with true.
    fold heading. destruct (truthy narrative); reflexivity.
Qed.

(** C3. With the analysis flag set, the reply starts with the Analysis
    segment: its heading, the narrative and, exactly when the history holds
    a user-authored message, the line "Recent signals:" followed by one
    bulleted line for each of the last two user-authored messages, content
    trimmed, in their order.  An empty narrative contributes no line.  With
    only the analysis flag and an empty history the whole reply is the
    heading and the narrative. *)
Theorem analysis_segment_spec (input narrative : jsstring) (steps : list jsstring)
    (history : list Message) (plan next : bool) :
  let heading := u16 "**Analysis**" in
  let signals := map signalLine (lastTwo (userMessages history)) in
  exists segment,
    formatAgentMessage input (mkMode true plan next) narrative steps history
    = join blankLine
        (segment :: whenSet plan (planSegment steps)
                    ++ whenSet next (nextMoveSegment input steps))
    /\ ((forall m, m ∈ history -> author m <> user) ->
        (narrative <> [] -> segment = join lf [heading; narrative])
        /\ (narrative = [] -> segment = heading))
    /\ ((exists m, m ∈ history /\ author m = user) ->
        (narrative <> [] ->
           segment = join lf ([heading; narrative; u16 "Recent signals:"] ++ signals))
        /\ (narrative = [] ->
           segment = join lf ([heading; u16 "Recent signals:"] ++ signals)))
    /\ (narrative <> [] ->
        formatAgentMessage input (mkMode true false false) narrative steps []
        = heading ++ lf ++ narrative).
Proof.
  intros heading signals.
  exists (analysisSegment narrative (reflectionsOf history)).
  split; [apply formatAgentMessage_unfold|].
  pose proof (analysisSegment_cases narrative history) as E. cbv zeta in E.
  fold heading signals in E.
  split; [|split].
  - intros Hnone. apply userMessages_nil_iff in Hnone.
    rewrite bool_decide_eq_false_2 in E by (intros H; now apply H).
    split.
    + intros Hn. apply truthy_true in Hn. now rewrite Hn in E.
    + intros ->. exact E.
  - intros Hsome. apply userMessages_cons_iff in Hsome.
    rewrite bool_decide_eq_true_2 in E by exact Hsome.
    split.
    + intros Hn. apply truthy_true in Hn. now rewrite Hn in E.
    + intros ->. exact E.
  - intros Hn. apply truthy_true in Hn.
    rewrite formatAgentMessage_unfold. cbn [analysis planning summary whenSet app join].
    pose proof (analysisSegment_cases narrative []) as E0. cbv zeta in E0.
    rewrite Hn in E0. exact E0.
Qed.

(** The analysis segment on a history with three user messages: only the
    last two are listed, trimmed. *)
Example analysis_segment_recent_signals :
  let u c := mkMessage [] user c None [] in
  let a c := mkMessage [] agent c None [] in
  formatAgentMessage (u16 "x") (mkMode true false false) (u16 "N") []
    [a (u16 "hi"); u (u16 "one"); a (u16 "r1"); u (u16 " two ");
     a (u16 "r2"); u (u16 "three")]
  = u16 "**Analysis**" ++ lf ++ u16 "N" ++ lf ++ u16 "Recent signals:" ++ lf
    ++ bullet ++ u16 "two" ++ lf ++ bullet ++ u16 "three".
Proof. vm_compute. reflexivity. Qed.

(** C6. With the three flags off the formatter returns the empty string,
    whatever the input, the narrative, the steps and the history. *)
Theorem formatAgentMessage_all_off (input narrative : jsstring)
    (steps : list jsstring) (history : list Message) :
  formatAgentMessage input (mkMode false false false) narrative steps history = [].
Proof. reflexivity. Qed.

Lemma join_head (sep p : jsstring) (rest : list jsstring) :
  exists tail, join sep (p :: rest) = p ++ tail.
Proof.
  destruct rest as [|q rest].
  - exists []. cbn [join]. now rewrite app_nil_r.
  - eexists. apply join_cons_cons.
Qed.

Lemma planSegment_lines (heading : jsstring) (n : nat) (steps : list jsstring) :
  join [10] (heading :: numberedFrom n steps)
  = heading
    ++ concat (imap (fun i step => [10] ++ decimal (i + n) ++ [46; 32] ++ step) steps).
Proof.
  revert heading n. induction steps as [|step steps IH]; intros heading n.
  - cbn. now rewrite app_nil_r.
  - cbn [numberedFrom]. rewrite join_cons_cons, IH, imap_cons. cbn [concat].
    assert (E : imap (fun i step0 => [10] ++ decimal (i + S n) ++ [46; 32] ++ step0) steps
                = imap ((fun i step0 => [10] ++ decimal (i + n) ++ [46; 32] ++ step0) ∘ S)
                    steps).
    { apply imap_ext. intros i x _. unfold compose.
      now replace (S i + n)%nat with (i + S n)%nat by lia. }
    rewrite E. change (0 + n)%nat with n. rewrite <- !app_assoc. reflexivity.
Qed.

Lemma numeralValue_of_uint (d : Decimal.uint) (acc : nat) :
  foldl (fun acc c => (10 * acc + N.to_nat (c - 48))%nat) acc
    (u16 (NilEmpty.string_of_uint d))
  = Nat.of_uint_acc d acc.
Proof.
  revert acc. unfold u16.
  induction d as [|d IH|d IH|d IH|d IH|d IH|d IH|d IH|d IH|d IH|d IH]; intros acc;
    [reflexivity|..];
    cbn [NilEmpty.string_of_uint list_ascii_of_string List.map foldl Nat.of_uint_acc];
    rewrite IH, Nat.tail_mul_spec; f_equal; cbn; lia.
Qed.

Lemma digits_of_uint (d : Decimal.uint) :
  Forall (fun c => 48 <= c /\ c <= 57) (u16 (NilEmpty.string_of_uint d)).
Proof.
  unfold u16.
  induction d as [|d IH|d IH|d IH|d IH|d IH|d IH|d IH|d IH|d IH|d IH];
    cbn [NilEmpty.string_of_uint list_ascii_of_string List.map];
    constructor; try exact IH; cbn; lia.
Qed.

Lemma to_uint_normal (n : nat) : Decimal.unorm (Nat.to_uint n) = Nat.to_uint n.
Proof.
  rewrite <- DecimalNat.Unsigned.to_of. now rewrite DecimalNat.Unsigned.of_to.
Qed.

(** The digits that [decimal] writes are the decimal numeral of the
    number. *)
Lemma decimal_numeral (n : nat) :
  isNumeral (decimal n) /\ numeralValue (decimal n) = n.
Proof.
  unfold decimal, numeralValue. split.
  - split; [|split; [apply digits_of_uint|]].
    + pose proof (to_uint_normal n) as Hn. unfold Decimal.unorm in Hn.
      destruct (Nat.to_uint n); discriminate.
    + pose proof (to_uint_normal n) as Hn. unfold Decimal.unorm in Hn.
      pose proof (DecimalFacts.nzhead_nonzero (Nat.to_uint n)) as Hz.
      destruct (Nat.to_uint n) as [|d|d|d|d|d|d|d|d|d|d] eqn:E;
        try (intros H; discriminate H).
      intros _. destruct (Decimal.nzhead (Decimal.D0 d)) as [|d'|d'|d'|d'|d'|d'|d'|d'|d'|d'] eqn:Ez;
        try discriminate Hn.
      * injection Hn as <-. reflexivity.
      * exfalso. apply (Hz d'). reflexivity.
  - rewrite numeralValue_of_uint. apply DecimalNat.Unsigned.of_to.
Qed.

(** C7. The reply is made of the segments whose flag is set, in the order
    Analysis, Plan, Next Move, which start with their headings, and two
    neighbours are separated by a blank line, that is by two line feeds
    (code unit 10).  The Plan segment is its heading followed by one line
    for each step, in the steps' order: a line feed, the decimal numeral of
    the step's position counted from 1, a dot (46), a space (32) and the
    step.  The numeral is made of digits, has no leading zero and denotes
    that position; for three steps the lines start with 1, 2 and 3. *)
Theorem formatAgentMessage_segments (input : jsstring) (mode : ModeState)
    (narrative : jsstring) (steps : list jsstring) (history : list Message) :
  let A := analysisSegment narrative (reflectionsOf history) in
  let P := planSegment steps in
  let M := nextMoveSegment input steps in
  formatAgentMessage input mode narrative steps history
  = join [10; 10]
      (whenSet (analysis mode) A ++ whenSet (planning mode) P
       ++ whenSet (summary mode) M)
  /\ join [10; 10] [A; P; M] = A ++ [10; 10] ++ P ++ [10; 10] ++ M
  /\ join [10; 10] [A; P] = A ++ [10; 10] ++ P
  /\ join [10; 10] [A; M] = A ++ [10; 10] ++ M
  /\ join [10; 10] [P; M] = P ++ [10; 10] ++ M
  /\ join [10; 10] [A] = A /\ join [10; 10] [P] = P /\ join [10; 10] [M] = M
  /\ join [10; 10] [] = []
  /\ (exists rest, A = u16 "**Analysis**" ++ rest)
  /\ M = u16 "**Next Move**" ++ [10] ++ u16 "I'll start by focusing on: "
         ++ summarizePrimaryTask input steps
  /\ P = u16 "**Plan**"
         ++ concat (imap (fun i step => [10] ++ decimal (i + 1) ++ [46; 32] ++ step)
                      steps)
  /\ (forall n, isNumeral (decimal n) /\ numeralValue (decimal n) = n)
  /\ decimal 1 = [49] /\ decimal 2 = [50] /\ decimal 3 = [51]
  /\ decimal 10 = [49; 48]
  /\ (forall s1 s2 s3,
        planSegment [s1; s2; s3]
        = u16 "**Plan**" ++ [10; 49; 46; 32] ++ s1 ++ [10; 50; 46; 32] ++ s2
          ++ [10; 51; 46; 32] ++ s3).
Proof.
  intros A P M. split; [exact (formatAgentMessage_unfold _ _ _ _ _)|].
  do 8 (split; [reflexivity|]).
  split.
  { unfold A, analysisSegment, filterBoolean, omap. cbn [list_omap].
    change (truthy (u16 "**Analysis**")) with true. cbv iota. apply join_head. }
  split; [reflexivity|].
  split.
  { unfold P, planSegment. rewrite (imap_numberedFrom 1).
    exact (planSegment_lines _ 1 steps). }
  split; [exact decimal_numeral|].
  do 4 (split; [vm_compute; reflexivity|]).
  intros s1 s2 s3. unfold planSegment. rewrite (imap_numberedFrom 1).
  rewrite (planSegment_lines _ 1 [s1; s2; s3]). cbn [imap concat compose].
  rewrite <- !app_assoc, app_nil_r.
  change (decimal (0 + 1)) with [49]. change (decimal (1 + 1)) with [50].
  change (decimal (2 + 1)) with [51]. reflexivity.
Qed.

(** The specification's example: the plan of the planning rule. *)
Example plan_segment_of_planning_rule :
  planSegment (steps (pickNarrative asciiToLowerCase
                        (u16 "Design a launch plan for a new productivity SaaS")))
  = u16 "**Plan**" ++ lf
    ++ u16 "1. Clarify success metrics and guardrails" ++ lf
    ++ u16 "2. Sequence milestones with resource sizing" ++ lf
    ++ u16 "3. Highlight dependencies and risk mitigations".
Proof. vm_compute. reflexivity. Qed.

Example decimal_examples :
  decimal 1 = u16 "1" /\ decimal 10 = u16 "10" /\ decimal 123 = u16 "123".
Proof. repeat split; vm_compute; reflexivity. Qed.

(** ** The controller *)

Lemma heuristics_narratives :
  Forall (fun rule : HeuristicRule => truthy (narrative rule) = true) heuristics.
Proof. repeat constructor. Qed.

Lemma lastTwo_snoc {A} (l : list A) (x : A) :
  lastTwo (l ++ [x])
  = match last l with
    | Some y => [y; x]
    | None => [x]
    end.
Proof.
  unfold lastTwo. rewrite reverse_snoc.
  destruct (reverse l) as [|b r] eqn:E.
  - rewrite <- (reverse_involutive l), E. reflexivity.
  - rewrite <- (reverse_involutive l), E, reverse_cons, last_snoc. reflexivity.
Qed.

Section Controller.

Variable toLowerCase : jsstring -> jsstring.


Lemma pickNarrative_narrative (prompt : jsstring) :
  truthy (narrative (pickNarrative toLowerCase prompt)) = true.
Proof.
  unfold pickNarrative.
  destruct (List.find _ heuristics) as [rule|] eqn:E; [|reflexivity].
  apply find_some in E as [Hin _]. apply list_elem_of_In in Hin.
  exact (proj1 (Forall_forall _ _) heuristics_narratives rule Hin).
Qed.

Lemma queue_accepts (h : Host) (s : AppState) :
  trim (input s) <> [] -> isThinking s = false ->
  let trimmed := trim (input s) in
  let userMessage := mkMessage (userId h) user trimmed None (userNow h) in
  let reply :=
    mkMessage (agentId h) agent
      (formatAgentMessage trimmed (mode s) (narrative (pickNarrative toLowerCase trimmed))
         (steps (pickNarrative toLowerCase trimmed)) (messages s ++ [userMessage]))
      (Some (u16 "Calibrated plan ready")) (agentNow h) in
  queueUserMessage toLowerCase h s
  = mkState (messages s ++ [userMessage]) [] (mode s) true
      (timers s ++ [mkTimer (timeoutDelay (random h)) reply]).
Proof.
  intros Hne Hidle. cbv zeta. unfold queueUserMessage.
  apply truthy_true in Hne. now rewrite Hne, Hidle.
Qed.

Lemma queue_rejects (h : Host) (s : AppState) :
  trim (input s) = [] \/ isThinking s = true -> queueUserMessage toLowerCase h s = s.
Proof.
  unfold queueUserMessage. intros [E | E]; rewrite E; [reflexivity|].
  now rewrite orb_true_r.
Qed.

(** While a reply is pending, nothing but the timer changes the messages,
    the timers or the pending flag. *)
Lemma pending_frame (e : Event) (s : AppState) :
  notTimeout e -> isThinking s = true ->
  messages (step toLowerCase e s) = messages s
  /\ timers (step toLowerCase e s) = timers s
  /\ isThinking (step toLowerCase e s) = true.
Proof.
  intros He Hp. destruct e as [v|i|key|h|i]; cbn [step].
  - now repeat split.
  - destruct (quickPrompts !! i); now repeat split.
  - now repeat split.
  - rewrite queue_rejects by now right. now repeat split.
  - destruct He.
Qed.

Lemma pending_frame_run (es : list Event) (s : AppState) :
  Forall notTimeout es -> isThinking s = true ->
  messages (run toLowerCase es s) = messages s
  /\ timers (run toLowerCase es s) = timers s
  /\ isThinking (run toLowerCase es s) = true.
Proof.
  intros Hes. revert s. induction Hes as [|e es He _ IH]; intros s Hp.
  - now repeat split.
  - destruct (pending_frame e s He Hp) as (Hm & Ht & Hp').
    destruct (IH (step toLowerCase e s) Hp') as (Hm' & Ht' & Hp'').
    cbn [run foldl]. unfold run in *.
    rewrite Hm', Ht', Hm, Ht. now repeat split.
Qed.

Lemma run_app (es1 es2 : list Event) (s : AppState) :
  run toLowerCase (es1 ++ es2) s = run toLowerCase es2 (run toLowerCase es1 s).
Proof. unfold run. apply foldl_app. Qed.

Lemma reachable_run (es : list Event) (s : AppState) :
  reachable toLowerCase s -> reachable toLowerCase (run toLowerCase es s).
Proof.
  revert s. induction es as [|e es IH]; intros s Hs; [exact Hs|].
  cbn [run foldl]. apply IH. now constructor.
Qed.

(** Every operation leaves the messages in place and appends at most one. *)
Lemma step_appends (e : Event) (s : AppState) :
  exists added, messages (step toLowerCase e s) = messages s ++ added
                /\ (length added <= 1)%nat.
Proof.
  assert (Hsame : forall l : list Message,
             exists added, l = l ++ added /\ (length added <= 1)%nat).
  { intros l. exists []. rewrite app_nil_r. split; [reflexivity | cbn; lia]. }
  destruct e as [v|i|key|h|i]; cbn [step].
  - apply Hsame.
  - destruct (quickPrompts !! i); apply Hsame.
  - apply Hsame.
  - unfold queueUserMessage. destruct (negb _ || _).
    + apply Hsame.
    + eexists [_]. split; [reflexivity | cbn; lia].
  - unfold fireTimer. destruct (timers s !! i) as [t|].
    + exists [agentMessage t]. split; [reflexivity | cbn; lia].
    + apply Hsame.
Qed.

Lemma run_prefix (es : list Event) (s : AppState) :
  messages s `prefix_of` messages (run toLowerCase es s).
Proof.
  revert s. induction es as [|e es IH]; intros s; [reflexivity|].
  cbn [run foldl]. etrans; [|apply IH].
  destruct (step_appends e s) as (added & -> & _). now apply prefix_app_r.
Qed.

Lemma consistent_step (e : Event) (s : AppState) :
  consistent toLowerCase s -> consistent toLowerCase (step toLowerCase e s).
Proof.
  intros Hs. destruct e as [v|i|key|h|i]; cbn [step].
  - exact Hs.
  - destruct (quickPrompts !! i); exact Hs.
  - exact Hs.
  - destruct Hs as [(Hidle & Htimers & Hconv) | (Hp & Hrest)].
    + destruct (trim (input s)) as [|c trimmed] eqn:E.
      * rewrite queue_rejects by now left. left. now repeat split.
      * rewrite queue_accepts by (rewrite ?E; done). cbv zeta. rewrite E, Htimers.
        right. split; [reflexivity|].
        eexists (messages s), _, _. repeat split; try done.
        now exists (mode s).
    + rewrite queue_rejects by now right. right. now split.
  - unfold fireTimer.
    destruct Hs as [(Hidle & Htimers & Hconv) | (Hp & l & u & t & Hm & Ht & Hconv & Htr)].
    + rewrite Htimers. cbn. left. now repeat split.
    + rewrite Ht. destruct i as [|i]; cbn.
      * left. repeat split. unfold timeoutCallback. cbn [messages].
        rewrite Hm, <- app_assoc. now constructor.
      * right. split; [exact Hp|]. now exists l, u, t.
Qed.

Lemma reachable_consistent (s : AppState) :
  reachable toLowerCase s -> consistent toLowerCase s.
Proof.
  induction 1 as [id0 now0 | e s _ IH].
  - left. repeat split. constructor.
  - now apply consistent_step.
Qed.

Lemma conversation_head (l : list Message) :
  conversation toLowerCase l ->
  exists first, l !! 0%nat = Some first /\ author first = agent
                /\ content first = greeting.
Proof.
  induction 1 as [id0 now0 | l u a _ (first & H0 & IH) _].
  - eexists. now repeat split.
  - exists first. split; [|exact IH]. now apply lookup_app_l_Some.
Qed.

(** In a conversation every agent message but the greeting comes right
    after the user message that triggered it. *)
Lemma conversation_agents (l : list Message) :
  conversation toLowerCase l ->
  forall i a, l !! i = Some a -> author a = agent ->
    (i = 0%nat /\ content a = greeting)
    \/ exists j u, i = S j /\ l !! j = Some u
                   /\ triggered toLowerCase (take j l) u a.
Proof.
  induction 1 as [id0 now0 | l u a0 Hconv IH Htr]; intros i a Hi Ha.
  - destruct i as [|i]; [|discriminate Hi]. injection Hi as <-. now left.
  - apply lookup_app_Some in Hi as [Hi | [Hge Hi]].
    + destruct (IH i a Hi Ha) as [? | (j & u' & -> & Hj & Htr')]; [now left|].
      right. exists j, u'. split; [reflexivity|].
      pose proof (lookup_lt_Some _ _ _ Hj) as Hlt.
      split; [now apply lookup_app_l_Some|].
      now rewrite take_app_le by lia.
    + destruct (i - length l)%nat as [|[|k]] eqn:Ek; cbn in Hi.
      * injection Hi as <-. destruct Htr as (Hu & _). congruence.
      * injection Hi as <-. right. exists (length l), u.
        split; [lia|]. split.
        -- rewrite lookup_app_r by lia. now rewrite Nat.sub_diag.
        -- now rewrite take_app_length.
      * discriminate Hi.
Qed.

Lemma snoc_user_agents (l : list Message) (u : Message) :
  author u = user ->
  (forall i a, l !! i = Some a -> author a = agent ->
     (i = 0%nat /\ content a = greeting)
     \/ exists j u', i = S j /\ l !! j = Some u'
                     /\ triggered toLowerCase (take j l) u' a) ->
  forall i a, (l ++ [u]) !! i = Some a -> author a = agent ->
    (i = 0%nat /\ content a = greeting)
    \/ exists j u', i = S j /\ (l ++ [u]) !! j = Some u'
                    /\ triggered toLowerCase (take j (l ++ [u])) u' a.
Proof.
  intros Hu H i a Hi Ha.
  apply lookup_app_Some in Hi as [Hi | [Hge Hi]].
  - destruct (H i a Hi Ha) as [? | (j & u' & -> & Hj & Htr')]; [now left|].
    right. exists j, u'. split; [reflexivity|].
    pose proof (lookup_lt_Some _ _ _ Hj) as Hlt.
    split; [now apply lookup_app_l_Some|].
    now rewrite take_app_le by lia.
  - destruct (i - length l)%nat as [|k]; cbn in Hi; [|discriminate Hi].
    injection Hi as <-. congruence.
Qed.

(** C4, amended.  In every reachable state each operation leaves the
    messages that exist in place and appends at most one, so the messages
    of a state stay a prefix of the messages of every later state; the
    first message is the agent's greeting, which the page starts with and
    which no user message precedes; every other agent message comes right
    after the user message that triggered it. *)
Theorem conversation_append_ordered (s : AppState) :
  reachable toLowerCase s ->
  (forall e, exists added,
      messages (step toLowerCase e s) = messages s ++ added
      /\ (length added <= 1)%nat)
  /\ (forall es, messages s `prefix_of` messages (run toLowerCase es s))
  /\ (exists first, messages s !! 0%nat = Some first /\ author first = agent
                    /\ content first = greeting)
  /\ (forall i a, messages s !! i = Some a -> author a = agent ->
        (i = 0%nat /\ content a = greeting)
        \/ exists j u, i = S j /\ messages s !! j = Some u
                       /\ triggered toLowerCase (take j (messages s)) u a).
Proof.
  intros Hs. split; [intros e; apply step_appends|].
  split; [intros es; apply run_prefix|].
  destruct (reachable_consistent s Hs)
    as [(_ & _ & Hconv) | (_ & l & u & t & Hm & _ & Hconv & Htr)].
  - split; [now apply conversation_head | now apply conversation_agents].
  - rewrite Hm. split.
    + destruct (conversation_head l Hconv) as (first & H0 & Hfirst).
      exists first. split; [now apply lookup_app_l_Some | exact Hfirst].
    + apply snoc_user_agents; [apply Htr | now apply conversation_agents].
Qed.

(** C5. A submit whose trimmed input is empty, or that comes while a reply
    is pending, changes nothing: the state it returns is the state it was
    given, with the same messages, input field and pending flag. *)
Theorem queueUserMessage_noop (h : Host) (s : AppState) :
  trim (input s) = [] \/ isThinking s = true ->
  step toLowerCase (Submit h) s = s
  /\ length (messages (step toLowerCase (Submit h) s)) = length (messages s)
  /\ input (step toLowerCase (Submit h) s) = input s
  /\ isThinking (step toLowerCase (Submit h) s) = isThinking s.
Proof.
  intros H. cbn [step]. now rewrite (queue_rejects h s H).
Qed.

(** C8. After an accepted submit made with the three flags off, the timer
    that the submit scheduled appends an agent message whose content is the
    empty string, whatever else happens on the page in between. *)
Theorem empty_reply_is_appended (h : Host) (s : AppState) (es : list Event) :
  reachable toLowerCase s ->
  trim (input s) <> [] -> isThinking s = false ->
  mode s = mkMode false false false ->
  Forall notTimeout es ->
  let userMessage := mkMessage (userId h) user (trim (input s)) None (userNow h) in
  let reply :=
    mkMessage (agentId h) agent [] (Some (u16 "Calibrated plan ready")) (agentNow h) in
  let pending := run toLowerCase es (step toLowerCase (Submit h) s) in
  messages pending = messages s ++ [userMessage]
  /\ isThinking pending = true
  /\ messages (step toLowerCase (Timeout 0) pending)
     = messages s ++ [userMessage; reply]
  /\ isThinking (step toLowerCase (Timeout 0) pending) = false.
Proof.
  intros Hs Hne Hidle Hmode Hes userMessage reply pending.
  destruct (reachable_consistent s Hs) as [(_ & Htimers & _) | (Hp & _)];
    [|congruence].
  pose proof (queue_accepts h s Hne Hidle) as Hq. cbv zeta in Hq.
  rewrite Hmode, Htimers in Hq. fold userMessage in Hq.
  change (formatAgentMessage _ (mkMode false false false) _ _ _) with (@nil N) in Hq. fold reply in Hq. cbn [app] in Hq.
  destruct (pending_frame_run es (step toLowerCase (Submit h) s) Hes)
    as (Hm & Ht & Hp); [cbn [step]; now rewrite Hq|].
  fold pending in Hm, Ht, Hp. cbn [step] in Hm, Ht. rewrite Hq in Hm, Ht.
  cbn [messages timers] in Hm, Ht.
  cbn [step]. unfold fireTimer. rewrite Ht. cbn [lookup list_lookup].
  unfold timeoutCallback. cbn [messages isThinking agentMessage].
  rewrite Hm, <- app_assoc. now repeat split.
Qed.

(** C9. On an accepted submit the formatter is given the messages with the
    new user message already at their end.  With the analysis flag set the
    reply therefore always has its "Recent signals:" block, and the last
    line of the block is the bullet followed by the trimmed input; the line
    before it, when there is one, is the previous user message's. *)
Theorem accepted_reply_lists_current_input (h : Host) (s : AppState)
    (plan next : bool) :
  trim (input s) <> [] -> isThinking s = false ->
  mode s = mkMode true plan next ->
  let trimmed := trim (input s) in
  let picked := pickNarrative toLowerCase trimmed in
  let after := step toLowerCase (Submit h) s in
  let previous :=
    match last (userMessages (messages s)) with
    | Some msg => signalLine msg ++ lf
    | None => []
    end in
  exists userMessage t,
    messages after = messages s ++ [userMessage]
    /\ author userMessage = user /\ content userMessage = trimmed
    /\ timers after = timers s ++ [t]
    /\ content (agentMessage t)
       = formatAgentMessage trimmed (mode s) (narrative picked) (steps picked)
           (messages after)
    /\ content (agentMessage t)
       = join blankLine
           ((u16 "**Analysis**" ++ lf ++ narrative picked ++ lf
             ++ u16 "Recent signals:" ++ lf ++ previous ++ bullet ++ trimmed)
            :: whenSet plan (planSegment (steps picked))
               ++ whenSet next (nextMoveSegment trimmed (steps picked))).
Proof.
  intros Hne Hidle Hmode trimmed picked after previous.
  pose proof (queue_accepts h s Hne Hidle) as Hq. cbv zeta in Hq.
  fold trimmed picked in Hq.
  set (userMessage := mkMessage (userId h) user trimmed None (userNow h)) in *.
  unfold after. cbn [step]. rewrite Hq. cbn [messages timers].
  eexists userMessage, _. repeat split.
  cbn [agentMessage content]. rewrite Hmode, formatAgentMessage_unfold.
  cbn [analysis planning summary whenSet app]. do 2 f_equal.
  pose proof (analysisSegment_cases (narrative picked) (messages s ++ [userMessage])) as E.
  cbv zeta in E. rewrite E. clear E.
  unfold picked at 1. rewrite pickNarrative_narrative. fold picked.
  assert (Hu : userMessages (messages s ++ [userMessage])
               = userMessages (messages s) ++ [userMessage]).
  { rewrite userMessages_app. reflexivity. }
  rewrite Hu, bool_decide_eq_true_2
    by (intros H; now apply app_eq_nil in H as [_ H]).
  rewrite lastTwo_snoc. unfold previous.
  assert (Hline : signalLine userMessage = bullet ++ trimmed).
  { unfold signalLine, userMessage, trimmed. cbn [content]. now rewrite trim_idem. }
  destruct (last (userMessages (messages s))) as [msg|];
    cbn [map fmap list_fmap app join]; rewrite Hline, <- ?app_assoc; reflexivity.
Qed.

End Controller.

(** C4, as the claim words it, fails in the state the page starts in: its
    only message is the agent's greeting, and no user message precedes it. *)
Lemma greeting_follows_no_user_message :
  reachable asciiToLowerCase sampleStart
  /\ messages sampleStart !! 0%nat
     = Some (mkMessage (u16 "id-0") agent greeting
               (Some (u16 "Ready when you are")) (u16 "09:59:59"))
  /\ ~ agentsFollowUsers (messages sampleStart).
Proof.
  split; [apply reachable_init|]. split; [reflexivity|].
  intros H. destruct (H 0%nat _ eq_refl eq_refl) as (j & u & Hj & _). lia.
Qed.

Lemma sampleTyped_reachable : reachable asciiToLowerCase sampleTyped.
Proof.
  apply (reachable_step asciiToLowerCase
           (Change (u16 "  Draft a post about roadmaps ")) sampleStart).
  apply reachable_init.
Qed.

Lemma conversation_append_ordered_witness :
  reachable asciiToLowerCase sampleDone
  /\ (forall es, messages sampleDone
                 `prefix_of` messages (run asciiToLowerCase es sampleDone))
  /\ (forall i a, messages sampleDone !! i = Some a -> author a = agent ->
        (i = 0%nat /\ content a = greeting)
        \/ exists j u, i = S j /\ messages sampleDone !! j = Some u
                       /\ triggered asciiToLowerCase
                            (take j (messages sampleDone)) u a).
Proof.
  assert (H : reachable asciiToLowerCase sampleDone)
    by (apply reachable_run, sampleTyped_reachable).
  pose proof (conversation_append_ordered asciiToLowerCase sampleDone H)
    as (_ & Hprefix & _ & Hagents).
  exact (conj H (conj Hprefix Hagents)).
Defined.

Lemma queueUserMessage_noop_witness :
  (trim (input sampleBlank) = [] \/ isThinking sampleBlank = true)
  /\ step asciiToLowerCase (Submit sampleHost) sampleBlank = sampleBlank.
Proof.
  assert (H : trim (input sampleBlank) = [] \/ isThinking sampleBlank = true)
    by (left; reflexivity).
  exact (conj H (proj1 (queueUserMessage_noop asciiToLowerCase sampleHost
                          sampleBlank H))).
Defined.

Lemma empty_reply_is_appended_witness :
  let es := [Toggle KAnalysis; Change (u16 "x"); Submit sampleHost] in
  let pending :=
    run asciiToLowerCase es (step asciiToLowerCase (Submit sampleHost) sampleSilent) in
  mode sampleSilent = mkMode false false false
  /\ messages (step asciiToLowerCase (Timeout 0) pending)
     = messages sampleSilent
       ++ [ mkMessage (u16 "id-user") user (u16 "hello") None (u16 "10:00:00");
            mkMessage (u16 "id-agent") agent []
              (Some (u16 "Calibrated plan ready")) (u16 "10:00:01") ]
  /\ isThinking (step asciiToLowerCase (Timeout 0) pending) = false.
Proof.
  assert (Hreach : reachable asciiToLowerCase sampleSilent)
    by (apply reachable_run, reachable_init).
  assert (Hinput : trim (input sampleSilent) <> []) by (vm_compute; discriminate).
  assert (Hes : Forall notTimeout
                  [Toggle KAnalysis; Change (u16 "x"); Submit sampleHost])
    by (repeat constructor).
  pose proof (empty_reply_is_appended asciiToLowerCase sampleHost sampleSilent
                [Toggle KAnalysis; Change (u16 "x"); Submit sampleHost]
                Hreach Hinput eq_refl eq_refl Hes) as (_ & _ & Hm & Hidle).
  exact (conj eq_refl (conj Hm Hidle)).
Defined.

Lemma accepted_reply_lists_current_input_witness :
  isThinking sampleTyped = false
  /\ mode sampleTyped = mkMode true true true
  /\ exists t,
       timers (step asciiToLowerCase (Submit sampleHost) sampleTyped) = [t]
       /\ content (agentMessage t)
          = join blankLine
              [ u16 "**Analysis**" ++ lf
                ++ u16 "You need a structured path. I'll break the objective into phases with crisp deliverables and checkpoints."
                ++ lf ++ u16 "Recent signals:" ++ lf
                ++ bullet ++ u16 "Draft a post about roadmaps";
                planSegment
                  (steps (pickNarrative asciiToLowerCase
                            (u16 "Draft a post about roadmaps")));
                nextMoveSegment (u16 "Draft a post about roadmaps")
                  (steps (pickNarrative asciiToLowerCase
                            (u16 "Draft a post about roadmaps"))) ].
Proof.
  assert (Hinput : trim (input sampleTyped) <> []) by (vm_compute; discriminate).
  destruct (accepted_reply_lists_current_input asciiToLowerCase sampleHost
              sampleTyped true true Hinput eq_refl eq_refl)
    as (userMessage & t & _ & _ & _ & Ht & _ & Hcontent).
  split; [reflexivity|]. split; [reflexivity|].
  exists t. split; [exact Ht | exact Hcontent].
Defined.

(** ** The delay of the reply

    The delay is computed in binary64.  [Binary64] derives, from the
    specification of the primitive floats, that rounding to nearest does not
    cross a float that bounds the exact result. *)

Module Binary64.
Local Open Scope Z_scope.

Lemma digits2_bounds (m : positive) :
  2 ^ (Zpos (digits2_pos m) - 1) <= Zpos m < 2 ^ Zpos (digits2_pos m).
Proof.
  induction m as [m IH | m IH |]; cbn [digits2_pos].
  - rewrite Pos2Z.inj_succ. replace (Z.succ (Zpos (digits2_pos m)) - 1)
      with (Z.succ (Zpos (digits2_pos m) - 1)) by lia.
    rewrite !Z.pow_succ_r by lia. lia.
  - rewrite Pos2Z.inj_succ. replace (Z.succ (Zpos (digits2_pos m)) - 1)
      with (Z.succ (Zpos (digits2_pos m) - 1)) by lia.
    rewrite !Z.pow_succ_r by lia. lia.
  - cbn. lia.
Qed.

Lemma iter_pos_nat {A} (f : A -> A) (p : positive) (x : A) :
  SpecFloat.iter_pos f p x = Nat.iter (Pos.to_nat p) f x.
Proof.
  revert x. induction p as [p IH | p IH |]; intros x; cbn [SpecFloat.iter_pos].
  - rewrite !IH, Pos2Nat.inj_xI. rewrite <- Nat.iter_add.
    replace (S (2 * Pos.to_nat p)) with (S (Pos.to_nat p + Pos.to_nat p)) by lia.
    now rewrite Nat.iter_succ_r.
  - rewrite !IH, Pos2Nat.inj_xO. rewrite <- Nat.iter_add.
    now replace (2 * Pos.to_nat p)%nat with (Pos.to_nat p + Pos.to_nat p)%nat by lia.
  - reflexivity.
Qed.

Lemma shr_1_spec (m : Z) (r s : bool) :
  0 <= m ->
  shr_1 (Build_shr_record m r s) = Build_shr_record (m / 2) (Z.odd m) (r || s).
Proof.
  intros Hm. rewrite <- Z.div2_div.
  destruct m as [|[p|p|]|p]; try reflexivity. lia.
Qed.

Lemma shr_nat (k : nat) (m : Z) :
  0 <= m ->
  let res := Nat.iter k shr_1 (Build_shr_record m false false) in
  shr_m res = m / 2 ^ Z.of_nat k
  /\ (m mod 2 ^ Z.of_nat k = 0 -> shr_r res = false /\ shr_s res = false).
Proof.
  intros Hm. induction k as [|k IH]; cbn zeta.
  - cbn. rewrite Z.div_1_r. auto.
  - cbn zeta in IH. rewrite Nat.iter_succ.
    destruct (Nat.iter k shr_1 (Build_shr_record m false false)) as [mk rk sk].
    cbn [shr_m shr_r shr_s] in IH. destruct IH as [Emk Hflags].
    assert (Hpow : 0 < 2 ^ Z.of_nat k) by (apply Z.pow_pos_nonneg; lia).
    assert (Hmk : 0 <= mk) by (rewrite Emk; apply Z.div_pos; lia).
    rewrite shr_1_spec by exact Hmk. cbn [shr_m shr_r shr_s].
    rewrite Nat2Z.inj_succ, Z.pow_succ_r by lia.
    split.
    + rewrite Emk, Z.div_div by lia. f_equal. lia.
    + intros Hmod.
      assert (Hdiv : m = 2 * 2 ^ Z.of_nat k * (m / (2 * 2 ^ Z.of_nat k))).
      { apply Z.div_exact; lia. }
      set (q := m / (2 * 2 ^ Z.of_nat k)) in *.
      assert (Em : m = (2 * q) * 2 ^ Z.of_nat k) by lia.
      assert (Hmod' : m mod 2 ^ Z.of_nat k = 0).
      { rewrite Em. apply Z.mod_mul. lia. }
      destruct (Hflags Hmod') as [-> ->]. split; [|reflexivity].
      rewrite Emk, Em, Z.div_mul by lia.
      rewrite Z.odd_mul. reflexivity.
Qed.

Lemma shr_pos (p : positive) (m e : Z) :
  0 <= m ->
  let '(res, e') := shr (Build_shr_record m false false) e (Zpos p) in
  e' = e + Zpos p
  /\ shr_m res = m / 2 ^ Zpos p
  /\ (m mod 2 ^ Zpos p = 0 -> shr_r res = false /\ shr_s res = false).
Proof.
  intros Hm. cbn [shr]. rewrite iter_pos_nat.
  pose proof (shr_nat (Pos.to_nat p) m Hm) as H. cbn zeta in H.
  rewrite positive_nat_Z in H. split; [reflexivity | exact H].
Qed.

Lemma round_nearest_even_bounds (m : Z) (l : location) :
  m <= round_nearest_even m l <= m + 1.
Proof.
  destruct l as [|[| |]]; cbn [round_nearest_even]; try lia.
  destruct (Z.even m); lia.
Qed.


Lemma fexp_eq (x : Z) : fexp prec emax x = Z.max (x - 53) (-1074).
Proof. reflexivity. Qed.

Lemma bounded_iff (m : positive) (e : Z) :
  bounded prec emax m e = true
  <-> Z.max (Zpos (digits2_pos m) + e - 53) (-1074) = e /\ e <= 971.
Proof.
  unfold bounded, canonical_mantissa. rewrite andb_true_iff, Z.eqb_eq, Z.leb_le.
  rewrite fexp_eq. reflexivity.
Qed.

(** The first shift of [binary_round_aux]: the mantissa is divided by the
    power of two that brings the exponent to [fexp]. *)
Lemma first_shift (mx : positive) (ex : Z) :
  let e1 := fexp prec emax (Zpos (digits2_pos mx) + ex) in
  ex <= e1 ->
  exists m1 r s,
    shr_fexp prec emax (Zpos mx) ex loc_Exact = (Build_shr_record m1 r s, e1)
    /\ m1 = Zpos mx / 2 ^ (e1 - ex)
    /\ (Zpos mx mod 2 ^ (e1 - ex) = 0 -> r = false /\ s = false).
Proof.
  intros e1 Hle. unfold shr_fexp. cbn [Zdigits2 shr_record_of_loc]. fold e1.
  destruct (e1 - ex) as [|p|p] eqn:En; [| |lia].
  - cbn [shr]. exists (Zpos mx), false, false.
    replace e1 with ex by lia. rewrite Z.pow_0_r, Z.div_1_r. auto.
  - pose proof (shr_pos p (Zpos mx) ex ltac:(lia)) as H.
    destruct (shr _ ex (Zpos p)) as [[m1 r s] e'].
    cbn [shr_m shr_r shr_s] in H. destruct H as (-> & -> & Hflags).
    exists (Zpos mx / 2 ^ Zpos p), r, s. split; [f_equal; lia|]. auto.
Qed.

(** The second shift, after rounding: it only acts when the rounded
    mantissa has reached [2 ^ 53]. *)
Lemma second_shift (m2 e1 : Z) :
  0 <= m2 <= 2 ^ 53 -> -1074 <= e1 -> e1 + 1 <= 971 ->
  (e1 <> -1074 -> 2 ^ 52 <= m2) ->
  let '(mrs, e2) := shr_fexp prec emax m2 e1 loc_Exact in
  let result :=
    match shr_m mrs with
    | Z0 => S754_zero false
    | Zpos m => if e2 <=? emax - prec then S754_finite false m e2
                else S754_infinity false
    | Zneg _ => S754_nan
    end in
  (m2 = 0 /\ result = S754_zero false)
  \/ exists m' e', result = S754_finite false m' e'
                   /\ bounded prec emax m' e' = true
                   /\ e1 <= e' /\ Zpos m' * 2 ^ (e' - e1) = m2.
Proof.
  intros Hm2 Hmin Hmax Hnormal.
  destruct m2 as [|q|q]; [| |lia].
  - unfold shr_fexp. cbn [Zdigits2 shr_record_of_loc]. rewrite fexp_eq.
    destruct (Z.max (0 + e1 - 53) (-1074) - e1) as [|p|p] eqn:En; [|lia|];
      cbn [shr shr_m]; now left.
  - pose proof (digits2_bounds q) as Hd.
    set (d := Zpos (digits2_pos q)) in *.
    destruct (Z.eq_dec (Zpos q) (2 ^ 53)) as [Eq | Hlt].
    + assert (q = 9007199254740992%positive) as -> by (cbn in Eq; lia).
      unfold shr_fexp. cbn [Zdigits2 shr_record_of_loc]. rewrite fexp_eq.
      change (Zpos (digits2_pos 9007199254740992)) with 54.
      replace (Z.max (54 + e1 - 53) (-1074) - e1) with 1 by lia.
      cbn [shr SpecFloat.iter_pos shr_1 shr_m].
      right. exists 4503599627370496%positive, (e1 + 1).
      change (emax - prec) with 971.
      destruct (Z.leb_spec (e1 + 1) 971) as [_|]; [|lia].
      split; [reflexivity|]. split; [|split; [lia|]].
      * apply bounded_iff.
        change (Zpos (digits2_pos 4503599627370496)) with 53. lia.
      * replace (e1 + 1 - e1) with 1 by lia. reflexivity.
    + assert (Hd53 : d <= 53).
      { destruct (Z.le_gt_cases d 53) as [|Hgt]; [assumption|].
        assert (2 ^ 53 <= 2 ^ (d - 1)) by (apply Z.pow_le_mono_r; lia). lia. }
      unfold shr_fexp. cbn [Zdigits2 shr_record_of_loc]. fold d. rewrite fexp_eq.
      destruct (Z.max (d + e1 - 53) (-1074) - e1) as [|p|p] eqn:En; [|lia|];
        cbn [shr shr_m]; right; exists q, e1; change (emax - prec) with 971;
        (destruct (Z.leb_spec e1 971) as [_|]; [|lia]);
        (split; [reflexivity|]);
        (split; [|split; [lia | rewrite Z.sub_diag, Z.pow_0_r; lia]]);
        apply bounded_iff; fold d.
      * lia.
      * destruct (Z.eq_dec e1 (-1074)) as [->|Hne]; [lia|].
        assert (d = 53); [|lia].
        destruct (Z.le_gt_cases 53 d) as [|Hlt53]; [lia|].
        assert (2 ^ d <= 2 ^ 52) by (apply Z.pow_le_mono_r; lia).
        specialize (Hnormal Hne). lia.
Qed.


(** What [binary_round_aux] returns on an exact positive input whose
    exponent is not above [fexp]: the mantissa divided by the power of two,
    or that plus one when the division is not exact, at exponent [fexp]. *)
Lemma round_aux_spec (mx : positive) (ex : Z) :
  let e1 := fexp prec emax (Zpos (digits2_pos mx) + ex) in
  let result := binary_round_aux prec emax false (Zpos mx) ex loc_Exact in
  ex <= e1 -> e1 + 1 <= 971 ->
  exists m2,
    Zpos mx / 2 ^ (e1 - ex) <= m2 <= Zpos mx / 2 ^ (e1 - ex) + 1
    /\ (Zpos mx mod 2 ^ (e1 - ex) = 0 -> m2 = Zpos mx / 2 ^ (e1 - ex))
    /\ ((m2 = 0 /\ result = S754_zero false)
        \/ exists m' e', result = S754_finite false m' e'
                         /\ bounded prec emax m' e' = true
                         /\ e1 <= e' /\ Zpos m' * 2 ^ (e' - e1) = m2).
Proof.
  intros e1 result Hle Hmax.
  destruct (first_shift mx ex Hle) as (m1 & r & s & Hshift & Em1 & Hflags).
  fold e1 in Hshift, Em1, Hflags.
  pose proof (digits2_bounds mx) as Hd.
  set (d := Zpos (digits2_pos mx)) in *.
  assert (He1 : e1 = Z.max (d + ex - 53) (-1074)) by (unfold e1; now rewrite fexp_eq).
  assert (Hpow : 0 < 2 ^ (e1 - ex)) by (apply Z.pow_pos_nonneg; lia).
  set (m2 := round_nearest_even m1 (loc_of_shr_record (Build_shr_record m1 r s))).
  pose proof (round_nearest_even_bounds m1
                (loc_of_shr_record (Build_shr_record m1 r s))) as Hr.
  fold m2 in Hr.
  exists m2. rewrite <- Em1. split; [exact Hr|]. split.
  - intros Hmod. destruct (Hflags Hmod) as [-> ->]. reflexivity.
  - assert (H0 : 0 <= m1) by (rewrite Em1; apply Z.div_pos; lia).
    assert (Hlt : m1 < 2 ^ 53).
    { rewrite Em1. apply Z.div_lt_upper_bound; [exact Hpow|].
      rewrite <- Z.pow_add_r by lia.
      assert (2 ^ d <= 2 ^ (e1 - ex + 53)) by (apply Z.pow_le_mono_r; lia). lia. }
    assert (Hnormal : e1 <> -1074 -> 2 ^ 52 <= m2).
    { intros Hne. assert (En : e1 - ex = d - 53) by lia.
      assert (2 ^ 52 <= m1); [|lia].
      rewrite Em1, En. apply Z.div_le_lower_bound; [apply Z.pow_pos_nonneg; lia|].
      rewrite <- Z.pow_add_r by lia. replace (d - 53 + 52) with (d - 1) by lia. lia. }
    pose proof (second_shift m2 e1 ltac:(lia) ltac:(lia) Hmax Hnormal) as H2.
    unfold result, binary_round_aux. rewrite Hshift. cbn [shr_m]. fold m2.
    destruct (shr_fexp prec emax m2 e1 loc_Exact) as [mrs e2]. exact H2.
Qed.

Lemma pow2_split (a b : Z) :
  -1200 <= a <= b -> 2 ^ (b + 1200) = 2 ^ (b - a) * 2 ^ (a + 1200).
Proof. intros H. rewrite <- Z.pow_add_r by lia. f_equal. lia. Qed.

Lemma pow2_pos (a : Z) : 0 <= a -> 0 < 2 ^ a.
Proof. intros. apply Z.pow_pos_nonneg; lia. Qed.

(** Comparison of two positive canonical floats is comparison of their
    values. *)
Lemma SFleb_canonical (m1 : positive) (e1 : Z) (m2 : positive) (e2 : Z) :
  bounded prec emax m1 e1 = true -> bounded prec emax m2 e2 = true ->
  scaled (Zpos m1) e1 <= scaled (Zpos m2) e2 ->
  SFleb (S754_finite false m1 e1) (S754_finite false m2 e2) = true.
Proof.
  unfold scaled. intros B1 B2 Hle.
  apply bounded_iff in B1 as [C1 _]. apply bounded_iff in B2 as [C2 _].
  pose proof (digits2_bounds m1) as D1. pose proof (digits2_bounds m2) as D2.
  set (d1 := Zpos (digits2_pos m1)) in *. set (d2 := Zpos (digits2_pos m2)) in *.
  unfold SFleb, SFcompare.
  destruct (Z.compare_spec e1 e2) as [Heq | Hlt | Hgt].
  - subst e2. fold (Pos.compare m1 m2).
    assert (Hp : 0 < 2 ^ (e1 + 1200)) by (apply pow2_pos; lia).
    assert (Hm : Zpos m1 <= Zpos m2) by nia.
    destruct (Pos.compare_spec m1 m2); try reflexivity. lia.
  - reflexivity.
  - exfalso.
    assert (d1 = 53) by lia. assert (d2 <= 53) by lia.
    assert (H1 : 2 ^ 52 * 2 ^ (e1 + 1200) <= Zpos m1 * 2 ^ (e1 + 1200)).
    { apply Z.mul_le_mono_nonneg_r; [apply Z.pow_nonneg; lia|].
      replace 52 with (d1 - 1) by lia. lia. }
    assert (H2 : Zpos m2 * 2 ^ (e2 + 1200) < 2 ^ 53 * 2 ^ (e2 + 1200)).
    { apply Z.mul_lt_mono_pos_r; [apply pow2_pos; lia|].
      assert (2 ^ d2 <= 2 ^ 53) by (apply Z.pow_le_mono_r; lia). lia. }
    rewrite <- Z.pow_add_r in H1, H2 by lia.
    assert (2 ^ (53 + (e2 + 1200)) <= 2 ^ (52 + (e1 + 1200)))
      by (apply Z.pow_le_mono_r; lia).
    lia.
Qed.

(** A value below a normal float [MB * 2 ^ EB] has its [fexp] at most [EB]. *)
Lemma fexp_below (mx : positive) (ex : Z) (MB : positive) (EB : Z) :
  bounded prec emax MB EB = true -> -1200 <= ex ->
  scaled (Zpos mx) ex <= scaled (Zpos MB) EB ->
  fexp prec emax (Zpos (digits2_pos mx) + ex) <= EB.
Proof.
  unfold scaled. intros HB Hex Hle. apply bounded_iff in HB as [CB _].
  pose proof (digits2_bounds mx) as Dx. pose proof (digits2_bounds MB) as DB.
  set (d := Zpos (digits2_pos mx)) in *. set (dB := Zpos (digits2_pos MB)) in *.
  rewrite fexp_eq. assert (HdB : dB <= 53) by lia.
  assert (H1 : 2 ^ (d - 1) * 2 ^ (ex + 1200) <= Zpos mx * 2 ^ (ex + 1200)).
  { apply Z.mul_le_mono_nonneg_r; [apply Z.pow_nonneg; lia | lia]. }
  assert (H2 : Zpos MB * 2 ^ (EB + 1200) < 2 ^ 53 * 2 ^ (EB + 1200)).
  { apply Z.mul_lt_mono_pos_r; [apply pow2_pos; lia|].
    assert (2 ^ dB <= 2 ^ 53) by (apply Z.pow_le_mono_r; lia). lia. }
  assert (Hd : 1 <= d) by (unfold d; lia).
  rewrite <- Z.pow_add_r in H1, H2 by lia.
  assert (Hlt : 2 ^ (d - 1 + (ex + 1200)) < 2 ^ (53 + (EB + 1200))) by lia.
  apply Z.pow_lt_mono_r_iff in Hlt; lia.
Qed.

(** Rounding does not cross a float that bounds the exact value from
    above. *)
Lemma round_aux_le (mx : positive) (ex : Z) (MB : positive) (EB : Z) :
  let result := binary_round_aux prec emax false (Zpos mx) ex loc_Exact in
  bounded prec emax MB EB = true -> EB <= 970 -> -1200 <= ex ->
  ex <= fexp prec emax (Zpos (digits2_pos mx) + ex) ->
  scaled (Zpos mx) ex <= scaled (Zpos MB) EB ->
  result = S754_zero false
  \/ exists m' e', result = S754_finite false m' e'
                   /\ bounded prec emax m' e' = true
                   /\ scaled (Zpos m') e' <= scaled (Zpos MB) EB.
Proof.
  intros result HB HEB Hex Hle Hval.
  pose proof (fexp_below mx ex MB EB HB Hex Hval) as He1.
  destruct (round_aux_spec mx ex Hle ltac:(lia))
    as (m2 & Hm2 & Hexact & [[_ Hz] | (m' & e' & Hr & Hb & He' & Hm')]).
  { now left. }
  right. exists m', e'. split; [exact Hr|]. split; [exact Hb|].
  set (e1 := fexp prec emax (Zpos (digits2_pos mx) + ex)) in *.
  unfold scaled in *.
  rewrite (pow2_split e1 e') by lia. rewrite (pow2_split e1 EB) by lia.
  rewrite !Z.mul_assoc, Hm'.
  apply Z.mul_le_mono_nonneg_r; [apply Z.pow_nonneg; lia|].
  set (K := Zpos MB * 2 ^ (EB - e1)).
  remember (e1 - ex) as n eqn:En.
  assert (Hn : 0 < 2 ^ n) by (apply pow2_pos; lia).
  assert (HK : Zpos mx <= K * 2 ^ n).
  { rewrite (pow2_split ex EB) in Hval by lia.
    replace (EB - ex) with ((EB - e1) + n) in Hval by lia.
    rewrite (Z.pow_add_r 2 (EB - e1) n) in Hval by lia.
    assert (Hp : 0 < 2 ^ (ex + 1200)) by (apply pow2_pos; lia).
    unfold K. nia. }
  destruct (Z.eq_dec (Zpos mx) (K * 2 ^ n)) as [Heq | Hne].
  - rewrite Hexact by (rewrite Heq; apply Z.mod_mul; lia).
    rewrite Heq, Z.div_mul by lia. lia.
  - assert (Zpos mx / 2 ^ n < K); [|lia].
    apply Z.div_lt_upper_bound; [exact Hn | lia].
Qed.

(** Rounding stays between two floats of one exponent that enclose the
    exact value. *)
Lemma round_aux_between (mx : positive) (ex : Z) (ML MB : positive) (E : Z) :
  let result := binary_round_aux prec emax false (Zpos mx) ex loc_Exact in
  bounded prec emax ML E = true -> bounded prec emax MB E = true ->
  E <= 970 -> -1200 <= ex ->
  ex <= fexp prec emax (Zpos (digits2_pos mx) + ex) ->
  scaled (Zpos ML) E <= scaled (Zpos mx) ex <= scaled (Zpos MB) E ->
  exists m' e', result = S754_finite false m' e'
                /\ bounded prec emax m' e' = true
                /\ scaled (Zpos ML) E <= scaled (Zpos m') e' <= scaled (Zpos MB) E.
Proof.
  intros result HL HB HE Hex Hle [Hlow Hhigh].
  pose proof (fexp_below mx ex MB E HB Hex Hhigh) as He1.
  destruct (round_aux_le mx ex MB E HB HE Hex Hle Hhigh)
    as [Hz | (m' & e' & Hr & Hb & Hup)]; fold result in Hz || fold result in Hr.
  - exfalso.
    destruct (round_aux_spec mx ex Hle ltac:(lia))
      as (m2 & Hm2 & _ & [[H0 _] | (m' & e' & Hr & _)]).
    + set (e1 := fexp prec emax (Zpos (digits2_pos mx) + ex)) in *.
      remember (e1 - ex) as n eqn:En.
      assert (Hn : 0 < 2 ^ n) by (apply pow2_pos; lia).
      assert (Hdiv : 0 <= Zpos mx / 2 ^ n) by (apply Z.div_pos; lia).
      assert (Hsmall : Zpos mx < 2 ^ n).
      { destruct (Z.lt_ge_cases (Zpos mx) (2 ^ n)) as [|Hge]; [assumption|].
        assert (1 <= Zpos mx / 2 ^ n)
          by (apply Z.div_le_lower_bound; lia). lia. }
      unfold scaled in Hlow.
      rewrite (pow2_split ex E) in Hlow by lia.
      replace (E - ex) with ((E - e1) + n) in Hlow by lia.
      rewrite (Z.pow_add_r 2 (E - e1) n) in Hlow by lia.
      assert (Hp : 0 < 2 ^ (ex + 1200)) by (apply pow2_pos; lia).
      assert (Hq : 0 < 2 ^ (E - e1)) by (apply pow2_pos; lia).
      assert (H1 : 1 <= Zpos ML * 2 ^ (E - e1)) by nia.
      assert (H2 : Zpos mx * 2 ^ (ex + 1200) < 2 ^ n * 2 ^ (ex + 1200))
        by (apply Z.mul_lt_mono_pos_r; lia).
      assert (H3 : 1 * (2 ^ n * 2 ^ (ex + 1200))
                   <= Zpos ML * 2 ^ (E - e1) * (2 ^ n * 2 ^ (ex + 1200)))
        by (apply Z.mul_le_mono_nonneg_r; nia).
      lia.
    + fold result in Hr. congruence.
  - exists m', e'. split; [exact Hr|]. split; [exact Hb|]. split; [|exact Hup].
    destruct (round_aux_spec mx ex Hle ltac:(lia))
      as (m2 & Hm2 & _ & [[_ Hz] | (m'' & e'' & Hr' & _ & He'' & Hm'')]);
      fold result in Hz || fold result in Hr'; [congruence|].
    rewrite Hr in Hr'. injection Hr' as <- <-.
    set (e1 := fexp prec emax (Zpos (digits2_pos mx) + ex)) in *.
    remember (e1 - ex) as n eqn:En.
    assert (Hn : 0 < 2 ^ n) by (apply pow2_pos; lia).
    unfold scaled in *.
    rewrite (pow2_split e1 e') by lia. rewrite (pow2_split e1 E) by lia.
    rewrite !Z.mul_assoc, Hm''.
    apply Z.mul_le_mono_nonneg_r; [apply Z.pow_nonneg; lia|].
    set (K := Zpos ML * 2 ^ (E - e1)).
    assert (HK : K * 2 ^ n <= Zpos mx).
    { rewrite (pow2_split ex E) in Hlow by lia.
      replace (E - ex) with ((E - e1) + n) in Hlow by lia.
      rewrite (Z.pow_add_r 2 (E - e1) n) in Hlow by lia.
      assert (Hp : 0 < 2 ^ (ex + 1200)) by (apply pow2_pos; lia).
      unfold K. nia. }
    assert (K <= Zpos mx / 2 ^ n); [|lia].
    apply Z.div_le_lower_bound; [exact Hn | lia].
Qed.


Lemma iter_xO (m d : positive) : Zpos (Pos.iter xO m d) = Zpos m * 2 ^ Zpos d.
Proof.
  induction d as [|d IH] using Pos.peano_ind.
  - cbn. lia.
  - rewrite Pos.iter_succ, Pos2Z.inj_xO, IH, Pos2Z.inj_succ, Z.pow_succ_r by lia. lia.
Qed.

Lemma shl_align_down (mx : positive) (ex ex' : Z) :
  ex' <= ex ->
  exists mx', shl_align mx ex ex' = (mx', ex')
              /\ Zpos mx' = Zpos mx * 2 ^ (ex - ex').
Proof.
  intros H. unfold shl_align. destruct (ex' - ex) as [|d|d] eqn:E; [|lia|].
  - exists mx. replace ex' with ex by lia. rewrite Z.sub_diag. split; [reflexivity | cbn; lia].
  - exists (Pos.iter xO mx d). split; [reflexivity|].
    rewrite iter_xO. f_equal. f_equal. lia.
Qed.

Lemma shl_align_up (mx : positive) (ex ex' : Z) :
  ex <= ex' -> shl_align mx ex ex' = (mx, ex).
Proof.
  intros H. unfold shl_align. destruct (ex' - ex) as [|d|d] eqn:E; try reflexivity. lia.
Qed.

Lemma digits2_normal (m : positive) :
  2 ^ 52 <= Zpos m -> 53 <= Zpos (digits2_pos m).
Proof.
  intros H. pose proof (digits2_bounds m) as [_ Hd].
  assert (Hlt : 2 ^ 52 < 2 ^ Zpos (digits2_pos m)) by lia.
  apply Z.pow_lt_mono_r_iff in Hlt; lia.
Qed.

Lemma Prim2SF_consts :
  Prim2SF 0 = S754_zero false
  /\ Prim2SF 1 = S754_finite false 4503599627370496 (-52)
  /\ Prim2SF 400 = S754_finite false 7036874417766400 (-44)
  /\ Prim2SF 550 = S754_finite false 4837851162214400 (-43)
  /\ Prim2SF 950 = S754_finite false 8356288371097600 (-43).
Proof. repeat split; vm_compute; reflexivity. Qed.

(** The product [r * 400] for a float [0 < r < 1]. *)
Lemma mul_400_bound (m : positive) (e : Z) :
  bounded prec emax m e = true ->
  SFltb (S754_finite false m e) (S754_finite false 4503599627370496 (-52)) = true ->
  let p := SF64mul (S754_finite false m e)
             (S754_finite false 7036874417766400 (-44)) in
  p = S754_zero false
  \/ exists mp ep, p = S754_finite false mp ep
                   /\ bounded prec emax mp ep = true
                   /\ scaled (Zpos mp) ep <= scaled 7036874417766400 (-44).
Proof.
  intros Hb Hlt p. pose proof Hb as Hb'. apply bounded_iff in Hb' as [Hc _].
  pose proof (digits2_bounds m) as Hd. set (d := Zpos (digits2_pos m)) in *.
  assert (Hm : Zpos m <= 2 ^ (- e) /\ e <= -52).
  { unfold SFltb, SFcompare in Hlt.
    destruct (Z.compare_spec e (-52)) as [-> | He | He]; [| |discriminate Hlt].
    - destruct (Pos.compare_cont Eq m 4503599627370496) eqn:Hcmp;
        try discriminate Hlt.
      assert (Hpos : Zpos m < Zpos 4503599627370496) by exact Hcmp.
      clear Hcmp Hlt. change (2 ^ (- -52)) with 4503599627370496. lia.
    - assert (2 ^ d <= 2 ^ (- e)) by (apply Z.pow_le_mono_r; lia). lia. }
  destruct Hm as [Hm He].
  unfold p, SF64mul, SFmul. cbn [xorb].
  set (M := 7036874417766400%positive).
  apply round_aux_le.
  - vm_compute. reflexivity.
  - lia.
  - lia.
  - rewrite fexp_eq.
    assert (53 <= Zpos (digits2_pos (m * M))); [|lia].
    apply digits2_normal. rewrite Pos2Z.inj_mul. unfold M. lia.
  - unfold scaled. rewrite Pos2Z.inj_mul.
    replace (-44 + 1200) with (- e + (e + -44 + 1200)) by lia.
    rewrite (Z.pow_add_r 2 (- e)) by lia.
    assert (Hp : 0 <= 2 ^ (e + -44 + 1200)) by (apply Z.pow_nonneg; lia).
    nia.
Qed.

(** The sum [550 + p] for a positive float [p] that is at most 400. *)
Lemma add_550_bound (mp : positive) (ep : Z) :
  bounded prec emax mp ep = true ->
  scaled (Zpos mp) ep <= scaled 7036874417766400 (-44) ->
  exists m' e',
    SF64add (S754_finite false 4837851162214400 (-43)) (S754_finite false mp ep)
    = S754_finite false m' e'
    /\ bounded prec emax m' e' = true
    /\ scaled 4837851162214400 (-43) <= scaled (Zpos m') e'
        <= scaled 8356288371097600 (-43).
Proof.
  intros Hb Hval. pose proof Hb as Hb'. apply bounded_iff in Hb' as [Hc _].
  pose proof (digits2_bounds mp) as Hd. set (d := Zpos (digits2_pos mp)) in *.
  assert (Hep : ep <= -44).
  { destruct (Z.le_gt_cases ep (-44)) as [|Hgt]; [assumption|]. exfalso.
    assert (d = 53) by lia.
    unfold scaled in Hval.
    assert (H1 : 2 ^ 52 * 2 ^ (ep + 1200) <= Zpos mp * 2 ^ (ep + 1200)).
    { apply Z.mul_le_mono_nonneg_r; [apply Z.pow_nonneg; lia|].
      replace 52 with (d - 1) by lia. lia. }
    rewrite <- Z.pow_add_r in H1 by lia.
    assert (H2 : 2 ^ 1209 <= 2 ^ (52 + (ep + 1200))) by (apply Z.pow_le_mono_r; lia).
    assert (H3 : 7036874417766400 * 2 ^ (-44 + 1200) < 2 ^ 1209)
      by (vm_compute; reflexivity).
    lia. }
  set (M550 := 4837851162214400%positive).
  destruct (shl_align_down M550 (-43) ep ltac:(lia)) as (a & Ea & Ha).
  unfold SF64add, SFadd. rewrite Z.min_r by lia.
  rewrite Ea, (shl_align_up mp ep ep) by lia. cbn [fst cond_Zopp].
  rewrite <- Pos2Z.inj_add. cbn [binary_normalize]. unfold binary_round.
  assert (Hbig : 53 <= Zpos (digits2_pos (a + mp))).
  { apply digits2_normal. rewrite Pos2Z.inj_add, Ha.
    assert (1 <= 2 ^ (-43 - ep)) by (pose proof (pow2_pos (-43 - ep)); lia).
    unfold M550. nia. }
  rewrite shl_align_up by (rewrite fexp_eq; lia).
  assert (Hsum : scaled (Zpos (a + mp)) ep
                 = scaled (Zpos M550) (-43) + scaled (Zpos mp) ep).
  { unfold scaled. rewrite Pos2Z.inj_add, Ha.
    rewrite (pow2_split ep (-43)) by lia. ring. }
  apply round_aux_between.
  - vm_compute. reflexivity.
  - vm_compute. reflexivity.
  - lia.
  - lia.
  - rewrite fexp_eq. lia.
  - rewrite Hsum.
    assert (Hnum : scaled (Zpos M550) (-43) + scaled 7036874417766400 (-44)
                   = scaled 8356288371097600 (-43)) by (vm_compute; reflexivity).
    assert (0 <= scaled (Zpos mp) ep).
    { unfold scaled. apply Z.mul_nonneg_nonneg; [lia | apply Z.pow_nonneg; lia]. }
    lia.
Qed.


End Binary64.

(** The largest double below 1 gives exactly 950: the product rounds to
    400 - 2^-44, and 550 plus that lies halfway between two doubles and
    rounds to the even one. *)
Lemma timeoutDelay_top :
  (0 <=? 0x1.fffffffffffffp-1)%float = true
  /\ (0x1.fffffffffffffp-1 <? 1)%float = true
  /\ timeoutDelay 0x1.fffffffffffffp-1 = 950%float.
Proof. repeat split; vm_compute; reflexivity. Qed.

(** For a double [0 <= r < 1] the double [550 + r * 400] lies between 550
    and 950, both included. *)
Lemma timeoutDelay_in_range (r : float) :
  (0 <=? r)%float = true -> (r <? 1)%float = true ->
  (550 <=? timeoutDelay r)%float = true
  /\ (timeoutDelay r <=? 950)%float = true.
Proof.
  intros H0 H1.
  rewrite leb_spec in H0. rewrite ltb_spec in H1. rewrite !leb_spec.
  unfold timeoutDelay. rewrite add_spec, mul_spec.
  destruct Binary64.Prim2SF_consts as (E0 & E1 & E400 & E550 & E950).
  rewrite E0 in H0. rewrite E1 in H1. rewrite E400, E550, E950.
  pose proof (Prim2SF_valid r) as Hv.
  destruct (Prim2SF r) as [s | s | | s m e].
  - destruct s; vm_compute; auto.
  - destruct s; vm_compute in H0, H1; discriminate.
  - vm_compute in H0. discriminate H0.
  - destruct s; [unfold SFleb, SFcompare in H0; discriminate H0|].
    destruct (Binary64.mul_400_bound m e Hv H1)
      as [Hz | (mp & ep & Hp & Hbp & Hvp)]; cbv zeta in *.
    + rewrite Hz. vm_compute. auto.
    + rewrite Hp.
      destruct (Binary64.add_550_bound mp ep Hbp Hvp)
        as (m' & e' & Hr & Hb' & Hlo & Hhi).
      rewrite Hr. split; apply Binary64.SFleb_canonical; auto;
        vm_compute; reflexivity.
Qed.

(** C10, as the claim words it, fails when [Math.random] returns the
    largest double below 1: the submit is accepted and the delay of its
    timer is 950, which is not below 950. *)
Lemma reply_delay_reaches_950 :
  (0 <=? random sampleHostTop)%float = true
  /\ (random sampleHostTop <? 1)%float = true
  /\ timers (step asciiToLowerCase (Submit sampleHostTop) sampleTyped)
     = [ mkTimer 950%float
           (mkMessage (u16 "id-agent") agent
              (formatAgentMessage (u16 "Draft a post about roadmaps")
                 (mkMode true true true)
                 (narrative (pickNarrative asciiToLowerCase
                               (u16 "Draft a post about roadmaps")))
                 (steps (pickNarrative asciiToLowerCase
                           (u16 "Draft a post about roadmaps")))
                 (messages (step asciiToLowerCase (Submit sampleHostTop)
                              sampleTyped)))
              (Some (u16 "Calibrated plan ready")) (u16 "10:00:01")) ]
  /\ (950 <? 950)%float = false.
Proof. repeat split; vm_compute; reflexivity. Qed.

(** C10, amended.  On an accepted submit, for every double [r] with
    [0 <= r < 1] that [Math.random] returns, the timer that appends the
    reply and clears the pending flag is given the delay [550 + r * 400],
    computed in binary64, and that delay lies in the closed interval from
    550 to 950 milliseconds. *)
Theorem reply_delay_bounds (toLowerCase : jsstring -> jsstring)
    (h : Host) (s : AppState) :
  trim (input s) <> [] -> isThinking s = false ->
  (0 <=? random h)%float = true -> (random h <? 1)%float = true ->
  exists t,
    timers (step toLowerCase (Submit h) s) = timers s ++ [t]
    /\ delay t = (550 + random h * 400)%float
    /\ (550 <=? delay t)%float = true
    /\ (delay t <=? 950)%float = true
    /\ messages (timeoutCallback (agentMessage t) (step toLowerCase (Submit h) s))
       = messages (step toLowerCase (Submit h) s) ++ [agentMessage t]
    /\ isThinking (timeoutCallback (agentMessage t) (step toLowerCase (Submit h) s))
       = false.
Proof.
  intros Hne Hidle H0 H1. cbn [step].
  rewrite (queue_accepts toLowerCase h s Hne Hidle). cbn [timers].
  eexists. split; [reflexivity|]. cbn [delay].
  split; [reflexivity|].
  destruct (timeoutDelay_in_range (random h) H0 H1) as [Hlow Hhigh].
  now repeat split.
Qed.

Lemma reply_delay_bounds_witness :
  (0 <=? random sampleHost)%float = true
  /\ (random sampleHost <? 1)%float = true
  /\ exists t,
       timers (step asciiToLowerCase (Submit sampleHost) sampleTyped) = [t]
       /\ delay t = 750%float.
Proof.
  assert (Hinput : trim (input sampleTyped) <> []) by (vm_compute; discriminate).
  destruct (reply_delay_bounds asciiToLowerCase sampleHost sampleTyped
              Hinput eq_refl eq_refl eq_refl)
    as (t & Ht & Hd & _).
  split; [reflexivity|]. split; [reflexivity|].
  exists t. split; [exact Ht|]. rewrite Hd. reflexivity.
Defined.

(** * Further properties of the page *)

(** ** The normal form of a prompt *)

Lemma singleSpaced_replaceRuns (b : bool) (s : jsstring) :
  singleSpaced b (replaceRuns b s) = true.
Proof.
  revert b. induction s as [|c s IH]; intros b; [reflexivity|].
  cbn [replaceRuns]. destruct (isWhiteSpace c) eqn:W.
  - destruct b; [apply IH|].
    cbn [singleSpaced]. change (isWhiteSpace 32) with true. cbn. apply IH.
  - cbn [singleSpaced]. rewrite W. apply IH.
Qed.

Lemma replaceRuns_fixed (b : bool) (s : jsstring) :
  singleSpaced b s = true -> replaceRuns b s = s.
Proof.
  revert b. induction s as [|c s IH]; intros b H; [reflexivity|].
  cbn [singleSpaced replaceRuns] in *. destruct (isWhiteSpace c).
  - apply andb_true_iff in H as [H Hs]. apply andb_true_iff in H as [Hb Hc].
    apply N.eqb_eq in Hc. subst c. destruct b; [discriminate Hb|].
    now rewrite (IH true Hs).
  - now rewrite (IH false H).
Qed.

Lemma singleSpaced_weaken (b : bool) (s : jsstring) :
  singleSpaced b s = true -> singleSpaced false s = true.
Proof.
  destruct s as [|c s]; [reflexivity|]. cbn [singleSpaced].
  destruct (isWhiteSpace c); [|auto]. destruct b; [discriminate | auto].
Qed.

Lemma singleSpaced_trimStart (b : bool) (s : jsstring) :
  singleSpaced b s = true -> singleSpaced false (trimStart s) = true.
Proof.
  revert b. induction s as [|c s IH]; intros b H; [reflexivity|].
  cbn [trimStart]. destruct (isWhiteSpace c) eqn:W.
  - cbn [singleSpaced] in H. rewrite W in H.
    apply andb_true_iff in H as [_ Hs]. now apply (IH true).
  - now apply (singleSpaced_weaken b).
Qed.

Lemma singleSpaced_trimEnd (b : bool) (s : jsstring) :
  singleSpaced b s = true -> singleSpaced b (trimEnd s) = true.
Proof.
  revert b. induction s as [|c s IH]; intros b H; [reflexivity|].
  cbn [trimEnd]. cbn [singleSpaced] in H.
  destruct (isWhiteSpace c) eqn:W.
  - apply andb_true_iff in H as [Hc Hs]. specialize (IH true Hs).
    destruct (trimEnd s) as [|d t]; [reflexivity|].
    cbn [singleSpaced] in IH |- *. now rewrite W, Hc.
  - specialize (IH false H).
    destruct (trimEnd s) as [|d t]; cbn [singleSpaced] in IH |- *; now rewrite W.
Qed.

Lemma trimStart_nil_iff (s : jsstring) :
  trimStart s = [] <-> Forall (fun c => isWhiteSpace c = true) s.
Proof.
  induction s as [|c s IH]; [split; auto|].
  cbn [trimStart]. destruct (isWhiteSpace c) eqn:W.
  - rewrite IH. split; [now constructor | now inversion 1].
  - split; [discriminate | inversion 1; congruence].
Qed.

Lemma trimEnd_nil_iff (s : jsstring) :
  trimEnd s = [] <-> Forall (fun c => isWhiteSpace c = true) s.
Proof.
  induction s as [|c s IH]; [split; auto|].
  cbn [trimEnd]. destruct (trimEnd s) as [|d t] eqn:E.
  - destruct (isWhiteSpace c) eqn:W.
    + split; [intros _; constructor; [exact W | now apply IH] | reflexivity].
    + split; [discriminate | inversion 1; congruence].
  - split; [discriminate|]. inversion 1 as [|? ? _ Hs]. apply IH in Hs. discriminate Hs.
Qed.

Lemma trimStart_blank_iff (s : jsstring) :
  Forall (fun c => isWhiteSpace c = true) (trimStart s)
  <-> Forall (fun c => isWhiteSpace c = true) s.
Proof.
  induction s as [|c s IH]; [reflexivity|].
  cbn [trimStart]. destruct (isWhiteSpace c) eqn:W; [|reflexivity].
  rewrite IH. split; [now constructor | now inversion 1].
Qed.

Lemma trim_nil_iff (s : jsstring) :
  trim s = [] <-> Forall (fun c => isWhiteSpace c = true) s.
Proof. unfold trim. now rewrite trimEnd_nil_iff, trimStart_blank_iff. Qed.

Lemma replaceRuns_blank_iff (b : bool) (s : jsstring) :
  Forall (fun c => isWhiteSpace c = true) (replaceRuns b s)
  <-> Forall (fun c => isWhiteSpace c = true) s.
Proof.
  revert b. induction s as [|c s IH]; intros b; [reflexivity|].
  cbn [replaceRuns]. destruct (isWhiteSpace c) eqn:W.
  - destruct b.
    + rewrite IH. split; [now constructor | now inversion 1].
    + split.
      * inversion 1 as [|? ? _ Hs]. constructor; [exact W | now apply (IH true)].
      * inversion 1 as [|? ? _ Hs]. constructor; [reflexivity | now apply (IH true)].
  - split; inversion 1; congruence.
Qed.

(** X10. The primary task depends on the prompt only through its normal
    form, the collapsed and trimmed prompt: normalising twice changes
    nothing, the normal form has no white space but single spaces between
    other code units, and it is empty exactly when the prompt is blank. *)
Theorem summarizePrimaryTask_normal_form (prompt : jsstring) (steps : list jsstring) :
  let concise := trim (collapseWhiteSpace prompt) in
  summarizePrimaryTask concise steps = summarizePrimaryTask prompt steps
  /\ trim (collapseWhiteSpace concise) = concise
  /\ singleSpaced false concise = true
  /\ trim concise = concise
  /\ (concise = [] <-> Forall (fun c => isWhiteSpace c = true) prompt).
Proof.
  intros concise.
  assert (Hs : singleSpaced false concise = true).
  { unfold concise, trim. apply singleSpaced_trimEnd.
    apply (singleSpaced_trimStart false). apply singleSpaced_replaceRuns. }
  assert (Ht : trim concise = concise) by apply trim_idem.
  assert (Hn : trim (collapseWhiteSpace concise) = concise).
  { unfold collapseWhiteSpace. now rewrite (replaceRuns_fixed false concise Hs). }
  split; [|split; [exact Hn | split; [exact Hs | split; [exact Ht|]]]].
  - unfold summarizePrimaryTask at 1. rewrite Hn. reflexivity.
  - unfold concise, collapseWhiteSpace. now rewrite trim_nil_iff, replaceRuns_blank_iff.
Qed.

(** X14. When the first step is shorter than 120 code units, so is the
    primary task, whatever the prompt. *)
Theorem summarizePrimaryTask_short (prompt : jsstring) (steps : list jsstring) :
  (forall first, steps !! 0%nat = Some first -> (length first < 120)%nat) ->
  (length (summarizePrimaryTask prompt steps) < 120)%nat.
Proof.
  intros H. rewrite summarizePrimaryTask_cases. cbv zeta.
  destruct (truthy _ && (_ <? 120)%nat) eqn:E.
  - apply andb_true_iff in E as [_ E]. now apply Nat.ltb_lt in E.
  - destruct steps as [|first rest].
    + destruct (truthy _); cbn; lia.
    + now apply H.
Qed.

Lemma summarizePrimaryTask_short_witness :
  (forall first, steps defaultResponse !! 0%nat = Some first ->
                 (length first < 120)%nat)
  /\ (length (summarizePrimaryTask (repeat 120%N 500) (steps defaultResponse)) < 120)%nat.
Proof.
  assert (H : forall first, steps defaultResponse !! 0%nat = Some first ->
                            (length first < 120)%nat).
  { intros first E. injection E as <-. vm_compute. lia. }
  exact (conj H (summarizePrimaryTask_short (repeat 120%N 500) (steps defaultResponse) H)).
Defined.

(** ** The formatter, further *)

Lemma analysisSegment_truthy (narrative reflections : jsstring) :
  truthy (analysisSegment narrative reflections) = true.
Proof.
  unfold analysisSegment, filterBoolean, omap. cbn [list_omap].
  change (truthy (u16 "**Analysis**")) with true. cbv iota.
  now apply join_truthy.
Qed.

Lemma planSegment_truthy (steps : list jsstring) : truthy (planSegment steps) = true.
Proof. unfold planSegment. now apply join_truthy. Qed.

Lemma nextMoveSegment_truthy (input : jsstring) (steps : list jsstring) :
  truthy (nextMoveSegment input steps) = true.
Proof. unfold nextMoveSegment. now apply join_truthy. Qed.

(** X8. The reply is the empty string exactly when the three flags are
    off: every segment starts with its heading, so one flag is enough for a
    nonempty reply. *)
Theorem formatAgentMessage_empty_iff (input : jsstring) (mode : ModeState)
    (narrative : jsstring) (steps : list jsstring) (history : list Message) :
  formatAgentMessage input mode narrative steps history = []
  <-> mode = mkMode false false false.
Proof.
  split.
  - intros H.
    assert (Ht : truthy (formatAgentMessage input mode narrative steps history) = false)
      by now rewrite H.
    rewrite formatAgentMessage_unfold in Ht.
    destruct mode as [[|] [|] [|]]; cbn [analysis planning summary whenSet app] in Ht;
      try reflexivity;
      rewrite join_truthy in Ht
        by (apply analysisSegment_truthy || apply planSegment_truthy
            || apply nextMoveSegment_truthy);
      discriminate Ht.
  - intros ->. reflexivity.
Qed.

Lemma userMessages_all_user (history : list Message) :
  Forall (fun msg => author msg = user) (userMessages history).
Proof.
  apply Forall_forall. intros m Hm. now apply list_elem_of_filter in Hm as [Hu _].
Qed.

Lemma userMessages_fixed (l : list Message) :
  Forall (fun msg => author msg = user) l -> userMessages l = l.
Proof.
  unfold userMessages. induction 1 as [|m l Hm _ IH]; [reflexivity|].
  rewrite filter_cons. destruct (decide (author m = user)); [|contradiction].
  now rewrite IH.
Qed.

Lemma lastTwo_Forall {A} (P : A -> Prop) (l : list A) :
  Forall P l -> Forall P (lastTwo l).
Proof. rewrite <- sliceLast_2. unfold sliceLast. apply Forall_drop. Qed.

Lemma lastTwo_idem {A} (l : list A) : lastTwo (lastTwo l) = lastTwo l.
Proof.
  rewrite <- !sliceLast_2. unfold sliceLast. rewrite length_drop.
  replace (length l - (length l - 2) - 2)%nat with 0%nat by lia. reflexivity.
Qed.

(** X9. Of the history the formatter uses the last two user-authored
    messages and nothing else: agent messages and older user messages do
    not change the reply. *)
Theorem formatAgentMessage_recent_history (input : jsstring) (mode : ModeState)
    (narrative : jsstring) (steps : list jsstring) (history : list Message) :
  formatAgentMessage input mode narrative steps history
  = formatAgentMessage input mode narrative steps (lastTwo (userMessages history)).
Proof.
  rewrite !formatAgentMessage_unfold, !reflectionsOf_spec.
  rewrite (userMessages_fixed (lastTwo (userMessages history)))
    by apply lastTwo_Forall, userMessages_all_user.
  now rewrite lastTwo_idem.
Qed.

(** ** The matcher, further *)

Lemma ruleMatches_extension (text longer : jsstring) (rule : HeuristicRule) :
  ruleMatches text rule -> occursIn text longer -> ruleMatches longer rule.
Proof.
  intros (k & Hk & pre & post & ->) (pre' & post' & ->).
  exists k. split; [exact Hk|]. exists (pre' ++ pre), (post ++ post').
  now rewrite <- !app_assoc.
Qed.

Lemma heuristics_steps :
  Forall (fun rule : HeuristicRule => exists first rest, steps rule = first :: rest)
    heuristics.
Proof. repeat constructor; eexists _, _; reflexivity. Qed.

Section MatcherFurther.

Variable toLowerCase : jsstring -> jsstring.

Lemma pickNarrative_steps (prompt : jsstring) :
  exists first rest, steps (pickNarrative toLowerCase prompt) = first :: rest.
Proof.
  unfold pickNarrative.
  destruct (List.find _ heuristics) as [rule|] eqn:E; [|eexists _, _; reflexivity].
  apply find_some in E as [Hin _]. apply list_elem_of_In in Hin.
  exact (proj1 (Forall_forall _ _) heuristics_steps rule Hin).
Qed.

(** X13. Text added around a prompt never loses a match: when a rule
    matches the lowercased prompt, and that lowercased prompt occurs in the
    lowercased longer prompt, the longer prompt gets that rule or an earlier
    one of the table, never the default response. *)
Theorem pickNarrative_extension (prompt longer : jsstring) (i : nat)
    (rule : HeuristicRule) :
  heuristics !! i = Some rule ->
  ruleMatches (toLowerCase prompt) rule ->
  occursIn (toLowerCase prompt) (toLowerCase longer) ->
  exists j rule',
    (j <= i)%nat /\ heuristics !! j = Some rule'
    /\ ruleMatches (toLowerCase longer) rule'
    /\ pickNarrative toLowerCase longer = response rule'.
Proof.
  intros Hi Hm Hocc.
  pose proof (ruleMatches_extension _ _ _ Hm Hocc) as Hm'.
  apply keywordHit_spec in Hm'. unfold pickNarrative.
  destruct (find_first (keywordHit (toLowerCase longer)) heuristics)
    as [(j & rule' & Hj & Hhit & Hbefore & Hfind) | [Hnone _]].
  - exists j, rule'. rewrite Hfind. split; [|split; [exact Hj | split; [|reflexivity]]].
    + destruct (Nat.le_gt_cases j i) as [|Hlt]; [assumption|].
      rewrite (Hbefore i rule Hlt Hi) in Hm'. discriminate Hm'.
    + now apply keywordHit_spec.
  - rewrite (Hnone rule) in Hm' by (eapply list_elem_of_lookup_2; exact Hi).
    discriminate Hm'.
Qed.

(** X11. For a prompt that is not blank, as every submitted one is, the
    primary task computed from the trimmed prompt and the steps of the
    picked response is the collapsed prompt when that is shorter than 120
    code units, and the first step of the response otherwise: the collapsed
    prompt is not empty and a first step always exists, so neither fallback
    phrase of [summarizePrimaryTask] is used. *)
Theorem primary_task_of_submission (prompt : jsstring) :
  trim prompt <> [] ->
  let trimmed := trim prompt in
  let picked := pickNarrative toLowerCase trimmed in
  let concise := trim (collapseWhiteSpace trimmed) in
  concise <> []
  /\ exists first,
       steps picked !! 0%nat = Some first
       /\ summarizePrimaryTask trimmed (steps picked)
          = if (length concise <? 120)%nat then concise else first.
Proof.
  intros Hne trimmed picked concise.
  assert (Hc : concise <> []).
  { unfold concise, collapseWhiteSpace. rewrite trim_nil_iff, replaceRuns_blank_iff.
    rewrite <- trim_nil_iff. unfold trimmed. now rewrite trim_idem. }
  split; [exact Hc|].
  destruct (pickNarrative_steps trimmed) as (first & rest & Hs). fold picked in Hs.
  exists first. rewrite Hs. split; [reflexivity|].
  rewrite summarizePrimaryTask_cases. cbv zeta. fold concise.
  apply truthy_true in Hc. rewrite Hc. cbn [andb].
  now destruct (length concise <? 120)%nat.
Qed.

End MatcherFurther.

Lemma pickNarrative_extension_witness :
  heuristics !! 0%nat
  = Some (mkRule [u16 "plan"; u16 "roadmap"; u16 "milestone"; u16 "strategy"]
            (pickNarrative asciiToLowerCase (u16 "plan")))
  /\ exists j rule',
       (j <= 0)%nat /\ heuristics !! j = Some rule'
       /\ ruleMatches (asciiToLowerCase (u16 "Write a PLAN today")) rule'
       /\ pickNarrative asciiToLowerCase (u16 "Write a PLAN today") = response rule'.
Proof.
  split; [reflexivity|].
  apply (pickNarrative_extension asciiToLowerCase (u16 "plan")
           (u16 "Write a PLAN today") 0 _ eq_refl).
  - exists (u16 "plan"). split; [left|]. exists [], []. reflexivity.
  - exists (u16 "write a "), (u16 " today"). reflexivity.
Defined.

Lemma primary_task_of_submission_witness :
  trim (u16 "  map   the sprint ") <> []
  /\ summarizePrimaryTask (trim (u16 "  map   the sprint "))
       (steps (pickNarrative asciiToLowerCase (trim (u16 "  map   the sprint "))))
     = u16 "map the sprint".
Proof.
  assert (H : trim (u16 "  map   the sprint ") <> []) by (vm_compute; discriminate).
  destruct (primary_task_of_submission asciiToLowerCase (u16 "  map   the sprint ") H)
    as (_ & first & _ & E).
  split; [exact H|]. rewrite E. reflexivity.
Defined.

(** ** The page, further *)

(** X12. The header always has a tagline to show, one of the three, and
    every appended message changes it. *)
Theorem rotatingTagline_rotates (messages : list Message) (m : Message) :
  (exists t, rotatingTagline messages = Some t /\ t ∈ taglines)
  /\ rotatingTagline (messages ++ [m]) <> rotatingTagline messages.
Proof.
  unfold rotatingTagline. change (length taglines) with 3%nat. cbv zeta. split.
  - assert (Hlt : (length messages mod 3 < length taglines)%nat)
      by (change (length taglines) with 3%nat; apply Nat.mod_upper_bound; lia).
    destruct (lookup_lt_is_Some_2 taglines _ Hlt) as [t Ht].
    exists t. split; [exact Ht|]. eapply list_elem_of_lookup_2. exact Ht.
  - rewrite length_app. cbn [length].
    rewrite <- (Nat.Div0.add_mod_idemp_l (length messages) 1 3).
    pose proof (Nat.mod_upper_bound (length messages) 3 ltac:(lia)) as Hlt.
    destruct (length messages mod 3)%nat as [|[|[|k]]]; [| | |lia];
      vm_compute; discriminate.
Qed.

(** X1. Toggling a mode twice gives the state back; toggles of two modes
    commute; a toggle flips the flag it names and leaves the other flags,
    the messages, the input, the pending flag and the timers alone. *)
Theorem toggleMode_flips (key : ModeKey) (s : AppState) :
  toggleMode key (toggleMode key s) = s
  /\ (forall other,
        toggleMode key (toggleMode other s) = toggleMode other (toggleMode key s))
  /\ modeFlag key (mode (toggleMode key s)) = negb (modeFlag key (mode s))
  /\ (forall other, other <> key ->
        modeFlag other (mode (toggleMode key s)) = modeFlag other (mode s))
  /\ messages (toggleMode key s) = messages s
  /\ input (toggleMode key s) = input s
  /\ isThinking (toggleMode key s) = isThinking s
  /\ timers (toggleMode key s) = timers s.
Proof.
  destruct s as [ms inp [a p su] th ts].
  split; [|split; [|split; [|split]]].
  - destruct key; unfold toggleMode; cbn; now rewrite negb_involutive.
  - intros other. destruct key, other; reflexivity.
  - destruct key; reflexivity.
  - intros other Hne. destruct key, other; try reflexivity; congruence.
  - now repeat split.
Qed.

Lemma conversation_alternates (toLowerCase : jsstring -> jsstring)
    (l : list Message) :
  conversation toLowerCase l ->
  Nat.even (length l) = false
  /\ forall i m, l !! i = Some m ->
       author m = if Nat.even i then agent else user.
Proof.
  induction 1 as [id0 now0 | l u a _ [IHlen IH] (Hu & Ha & _)].
  - split; [reflexivity|]. intros [|i] m Hi; [|discriminate Hi].
    now injection Hi as <-.
  - split.
    + rewrite length_app. cbn [length].
      replace (length l + 2)%nat with (S (S (length l))) by lia.
      now rewrite Nat.even_succ_succ.
    + intros i m Hi. apply lookup_app_Some in Hi as [Hi | [Hge Hi]]; [now apply IH|].
      replace i with (length l + (i - length l))%nat by lia.
      destruct (i - length l)%nat as [|[|k]]; cbn in Hi; [| |discriminate Hi];
        injection Hi as <-.
      * now rewrite Nat.add_0_r, IHlen.
      * replace (length l + 1)%nat with (S (length l)) by lia.
        rewrite Nat.even_succ, <- Nat.negb_even, IHlen. exact Ha.
Qed.

Section ControllerFurther.

Variable toLowerCase : jsstring -> jsstring.

(** X2. The send button is disabled exactly when a submit would be
    ignored: the [disabled] attribute and the guard of [queueUserMessage]
    agree. *)
Theorem sendDisabled_iff_ignored (h : Host) (s : AppState) :
  sendDisabled s = true <-> step toLowerCase (Submit h) s = s.
Proof.
  unfold sendDisabled. cbn [step]. split.
  - intros H. apply queue_rejects. apply orb_true_iff in H as [H | H]; [left | now right].
    destruct (trim (input s)); [reflexivity | discriminate H].
  - intros H. destruct (negb _ || _) eqn:E; [reflexivity|].
    apply orb_false_iff in E as [Ht Hidle]. apply negb_false_iff, truthy_true in Ht.
    rewrite (queue_accepts toLowerCase h s Ht Hidle) in H.
    apply (f_equal isThinking) in H. cbn [isThinking] in H. congruence.
Qed.

(** X3. At most one reply is in flight: in every reachable state exactly
    one timer is pending while the page is thinking and none otherwise, so
    a timer event on an idle page changes nothing. *)
Theorem one_reply_in_flight (s : AppState) :
  reachable toLowerCase s ->
  length (timers s) = (if isThinking s then 1 else 0)%nat
  /\ (isThinking s = false -> forall i, step toLowerCase (Timeout i) s = s).
Proof.
  intros Hs.
  destruct (reachable_consistent toLowerCase s Hs)
    as [(Hidle & Htimers & _) | (Hp & l & u & t & _ & Ht & _)].
  - rewrite Hidle, Htimers. split; [reflexivity|].
    intros _ i. cbn [step]. unfold fireTimer. now rewrite Htimers.
  - rewrite Hp, Ht. split; [reflexivity | congruence].
Qed.

(** X4. A pending reply always resolves: in a reachable state that is
    thinking, the first timer appends one agent message, clears the pending
    flag, leaves no timer behind and keeps the input and the flags as they
    are. *)
Theorem pending_reply_resolves (s : AppState) :
  reachable toLowerCase s -> isThinking s = true ->
  exists reply,
    author reply = agent
    /\ step toLowerCase (Timeout 0) s
       = mkState (messages s ++ [reply]) (input s) (mode s) false [].
Proof.
  intros Hs Hp.
  destruct (reachable_consistent toLowerCase s Hs)
    as [(Hidle & _) | (_ & l & u & t & _ & Ht & _ & (_ & Ha & _))]; [congruence|].
  exists (agentMessage t). split; [exact Ha|].
  cbn [step]. unfold fireTimer. rewrite Ht. reflexivity.
Qed.

(** X5. Authors alternate: in every reachable state the messages at even
    positions are the agent's and those at odd positions are the user's, no
    message is a system message, and the page is thinking exactly when the
    number of messages is even. *)
Theorem authors_alternate (s : AppState) :
  reachable toLowerCase s ->
  (forall i m, messages s !! i = Some m ->
     author m = if Nat.even i then agent else user)
  /\ isThinking s = Nat.even (length (messages s)).
Proof.
  intros Hs.
  destruct (reachable_consistent toLowerCase s Hs)
    as [(Hidle & _ & Hconv) | (Hp & l & u & t & Hm & _ & Hconv & (Hu & _))].
  - destruct (conversation_alternates toLowerCase _ Hconv) as [Hlen Halt].
    split; [exact Halt | congruence].
  - destruct (conversation_alternates toLowerCase _ Hconv) as [Hlen Halt].
    rewrite Hm, Hp. split.
    + intros i m Hi. apply lookup_app_Some in Hi as [Hi | [Hge Hi]]; [now apply Halt|].
      replace i with (length l + (i - length l))%nat by lia.
      destruct (i - length l)%nat as [|k]; cbn in Hi; [|discriminate Hi].
      injection Hi as <-. now rewrite Nat.add_0_r, Hlen.
    + rewrite length_app. cbn [length].
      replace (length l + 1)%nat with (S (length l)) by lia.
      now rewrite Nat.even_succ, <- Nat.negb_even, Hlen.
Qed.

Lemma storable_step (e : Event) (s : AppState) :
  Forall storable (messages s) ->
  Forall (fun t => storable (agentMessage t)) (timers s) ->
  Forall storable (messages (step toLowerCase e s))
  /\ Forall (fun t => storable (agentMessage t)) (timers (step toLowerCase e s)).
Proof.
  intros Hm Ht. destruct e as [v|i|key|h|i]; cbn [step].
  - now split.
  - destruct (quickPrompts !! i); now split.
  - now split.
  - destruct (trim (input s)) as [|c trimmed] eqn:E.
    + rewrite queue_rejects by now left. now split.
    + destruct (isThinking s) eqn:Hp.
      * rewrite queue_rejects by now right. now split.
      * rewrite queue_accepts by (rewrite ?E; done). cbv zeta. cbn [messages timers].
        split; apply Forall_app; (split; [assumption|]); (constructor; [|constructor]).
        -- unfold storable. cbn [author content hint].
           split; [now rewrite E | split; [apply trim_idem | reflexivity]].
        -- unfold storable. cbn [agentMessage author hint]. discriminate.
  - unfold fireTimer. destruct (timers s !! i) as [t|] eqn:Ei; [|now split].
    unfold timeoutCallback. cbn [messages timers]. split.
    + apply Forall_app. split; [assumption|]. constructor; [|constructor].
      exact (proj1 (Forall_lookup _ _) Ht i t Ei).
    + now apply Forall_delete.
Qed.

(** X6. What the conversation stores: in every reachable state a user
    message has a nonempty content without white space at either end and no
    hint, an agent message has a hint, and no message is a system message. *)
Theorem messages_storable (s : AppState) :
  reachable toLowerCase s -> Forall storable (messages s).
Proof.
  intros Hs.
  assert (H : Forall storable (messages s)
              /\ Forall (fun t => storable (agentMessage t)) (timers s)).
  { induction Hs as [id0 now0 | e s _ [IHm IHt]].
    - split; [|constructor]. constructor; [|constructor].
      unfold storable. cbn. discriminate.
    - now apply storable_step. }
  apply H.
Qed.

(** X7. The reply is fixed when the submit is accepted: whatever is typed
    or toggled while the page is thinking, the timer appends the message
    formatted at submit time, with the flags and the history of that
    moment; the input and the flags changed meanwhile stay as they are. *)
Theorem reply_fixed_at_submit (h : Host) (s : AppState) (es : list Event) :
  reachable toLowerCase s ->
  trim (input s) <> [] -> isThinking s = false ->
  Forall notTimeout es ->
  let trimmed := trim (input s) in
  let picked := pickNarrative toLowerCase trimmed in
  let userMessage := mkMessage (userId h) user trimmed None (userNow h) in
  let reply :=
    mkMessage (agentId h) agent
      (formatAgentMessage trimmed (mode s) (narrative picked) (steps picked)
         (messages s ++ [userMessage]))
      (Some (u16 "Calibrated plan ready")) (agentNow h) in
  let pending := run toLowerCase es (step toLowerCase (Submit h) s) in
  step toLowerCase (Timeout 0) pending
  = mkState (messages s ++ [userMessage; reply]) (input pending) (mode pending)
      false [].
Proof.
  intros Hs Hne Hidle Hes trimmed picked userMessage reply pending.
  destruct (reachable_consistent toLowerCase s Hs) as [(_ & Htimers & _) | (Hp & _)];
    [|congruence].
  pose proof (queue_accepts toLowerCase h s Hne Hidle) as Hq. cbv zeta in Hq.
  fold trimmed picked userMessage reply in Hq. rewrite Htimers in Hq. cbn [app] in Hq.
  destruct (pending_frame_run toLowerCase es (step toLowerCase (Submit h) s) Hes)
    as (Hm & Ht & Hp); [cbn [step]; now rewrite Hq|].
  fold pending in Hm, Ht, Hp. cbn [step] in Hm, Ht. rewrite Hq in Hm, Ht.
  cbn [messages timers] in Hm, Ht.
  cbn [step]. unfold fireTimer. rewrite Ht. cbn [lookup list_lookup].
  unfold timeoutCallback. cbn [messages input mode timers agentMessage].
  rewrite Hm, <- app_assoc. reflexivity.
Qed.

End ControllerFurther.

Lemma samplePending_reachable : reachable asciiToLowerCase samplePending.
Proof. apply reachable_step, sampleTyped_reachable. Qed.

Lemma sampleDone_reachable : reachable asciiToLowerCase sampleDone.
Proof. apply reachable_run, sampleTyped_reachable. Qed.

Lemma one_reply_in_flight_witness :
  reachable asciiToLowerCase samplePending
  /\ isThinking samplePending = true
  /\ length (timers samplePending) = 1%nat.
Proof.
  split; [exact samplePending_reachable|]. split; [reflexivity|].
  exact (proj1 (one_reply_in_flight asciiToLowerCase samplePending
                  samplePending_reachable)).
Defined.

Lemma pending_reply_resolves_witness :
  reachable asciiToLowerCase samplePending
  /\ isThinking samplePending = true
  /\ exists reply,
       author reply = agent
       /\ step asciiToLowerCase (Timeout 0) samplePending
          = mkState (messages samplePending ++ [reply]) (input samplePending)
              (mode samplePending) false [].
Proof.
  split; [exact samplePending_reachable|]. split; [reflexivity|].
  exact (pending_reply_resolves asciiToLowerCase samplePending
           samplePending_reachable eq_refl).
Defined.

Lemma authors_alternate_witness :
  reachable asciiToLowerCase sampleDone
  /\ List.map author (messages sampleDone) = [agent; user; agent]
  /\ isThinking sampleDone = Nat.even (length (messages sampleDone)).
Proof.
  split; [exact sampleDone_reachable|]. split; [reflexivity|].
  exact (proj2 (authors_alternate asciiToLowerCase sampleDone sampleDone_reachable)).
Defined.

Lemma messages_storable_witness :
  reachable asciiToLowerCase sampleDone
  /\ Forall storable (messages sampleDone).
Proof.
  split; [exact sampleDone_reachable|].
  exact (messages_storable asciiToLowerCase sampleDone sampleDone_reachable).
Defined.

Lemma reply_fixed_at_submit_witness :
  let es := [Toggle KAnalysis; Toggle KPlanning; Toggle KSummary;
             Change (u16 "next")] in
  let final :=
    step asciiToLowerCase (Timeout 0)
      (run asciiToLowerCase es
         (step asciiToLowerCase (Submit sampleHost) sampleTyped)) in
  mode final = mkMode false false false
  /\ input final = u16 "next"
  /\ isThinking final = false
  /\ content <$> last (messages final)
     = Some (formatAgentMessage (u16 "Draft a post about roadmaps")
               (mkMode true true true)
               (narrative (pickNarrative asciiToLowerCase
                             (u16 "Draft a post about roadmaps")))
               (steps (pickNarrative asciiToLowerCase
                         (u16 "Draft a post about roadmaps")))
               (messages samplePending)).
Proof.
  assert (Hinput : trim (input sampleTyped) <> []) by (vm_compute; discriminate).
  assert (Hes : Forall notTimeout
                  [Toggle KAnalysis; Toggle KPlanning; Toggle KSummary;
                   Change (u16 "next")])
    by (repeat constructor).
  pose proof (reply_fixed_at_submit asciiToLowerCase sampleHost sampleTyped _
                sampleTyped_reachable Hinput eq_refl Hes) as E.
  cbv zeta in E |- *. rewrite E. repeat split.
Defined.

Section SubmitOnce.

Variable toLowerCase : jsstring -> jsstring.

(** X15. Pressing send again and again sends the message once: after an
    accepted submit, further submits and timer events, in any number and
    order, leave the page either waiting with the one user message appended
    or idle with that message and its one reply appended, the input empty. *)
Theorem repeated_submit_sends_once (h : Host) (s : AppState) (es : list Event) :
  reachable toLowerCase s ->
  trim (input s) <> [] -> isThinking s = false ->
  Forall submitOrTimeout es ->
  let waiting := step toLowerCase (Submit h) s in
  let answered := step toLowerCase (Timeout 0) waiting in
  messages waiting = messages s ++ [mkMessage (userId h) user (trim (input s)) None (userNow h)]
  /\ (exists reply, messages answered = messages waiting ++ [reply]
                    /\ author reply = agent)
  /\ input answered = [] /\ isThinking answered = false
  /\ (run toLowerCase es waiting = waiting
      \/ run toLowerCase es waiting = answered).
Proof.
  intros Hs Hne Hidle Hes waiting answered.
  destruct (reachable_consistent toLowerCase s Hs) as [(_ & Htimers & _) | (Hp & _)];
    [|congruence].
  pose proof (queue_accepts toLowerCase h s Hne Hidle) as Hq. cbv zeta in Hq.
  rewrite Htimers in Hq. cbn [app] in Hq.
  assert (Hw : waiting = queueUserMessage toLowerCase h s) by reflexivity.
  rewrite Hq in Hw.
  assert (Ha : answered = fireTimer 0 waiting) by reflexivity.
  rewrite Hw in Ha. unfold fireTimer, timeoutCallback in Ha.
  cbn [timers lookup list_lookup messages input mode isThinking agentMessage delete
       list_delete] in Ha.
  split; [now rewrite Hw|]. split; [|split; [now rewrite Ha | split; [now rewrite Ha|]]].
  { eexists. rewrite Ha, Hw. cbn [messages author]. split; reflexivity. }
  assert (Hstay_w : forall e, submitOrTimeout e ->
            step toLowerCase e waiting = waiting \/ step toLowerCase e waiting = answered).
  { intros [v|i|key|h'|i] He; try destruct He; cbn [step].
    - left. apply queue_rejects. right. now rewrite Hw.
    - destruct i as [|i]; [now right|]. left.
      unfold fireTimer. rewrite Hw. reflexivity. }
  assert (Hstay_a : forall e, submitOrTimeout e -> step toLowerCase e answered = answered).
  { intros [v|i|key|h'|i] He; try destruct He; cbn [step].
    - apply queue_rejects. left. now rewrite Ha.
    - unfold fireTimer. rewrite Ha. reflexivity. }
  clear Hq Hw Ha.
  assert (Hgen : forall st, st = waiting \/ st = answered ->
            run toLowerCase es st = waiting \/ run toLowerCase es st = answered).
  { induction Hes as [|e es He _ IH]; intros st Hst; [exact Hst|].
    cbn [run foldl]. apply IH. destruct Hst as [-> | ->].
    - now apply Hstay_w.
    - right. now apply Hstay_a. }
  apply Hgen. now left.
Qed.

End SubmitOnce.

Lemma repeated_submit_sends_once_witness :
  let es := [Submit sampleHostTop; Timeout 0; Submit sampleHost; Timeout 0;
             Submit sampleHost] in
  reachable asciiToLowerCase sampleTyped
  /\ (run asciiToLowerCase es samplePending = samplePending
      \/ run asciiToLowerCase es samplePending
         = step asciiToLowerCase (Timeout 0) samplePending).
Proof.
  assert (Hinput : trim (input sampleTyped) <> []) by (vm_compute; discriminate).
  assert (Hes : Forall submitOrTimeout
                  [Submit sampleHostTop; Timeout 0; Submit sampleHost; Timeout 0;
                   Submit sampleHost])
    by (repeat constructor).
  pose proof (repeated_submit_sends_once asciiToLowerCase sampleHost sampleTyped _
                sampleTyped_reachable Hinput eq_refl Hes) as (_ & _ & _ & _ & H).
  split; [exact sampleTyped_reachable|]. exact H.
Defined.
